(** * CodeLens: the view logic of the web UI and the gateway's proxy route

    A shallow embedding of the parts of CodeLens that carry logic:

    - the comparison page ([AnalysisComparePage.jsx]): language comparison,
      file lists, age difference, the guard on the [ids] query parameter;
    - the language chart ([CodeDistribution.jsx]);
    - the two status-polling loops ([useAnalysis.js], [AnalysisProgress.jsx]);
    - the gateway route to the source-code service ([sourceCode.ts], [config.ts]);
    - the API client of the web UI ([api.js]);
    - the selection of analyses on the history page ([AnalysisHistoryPage.jsx]).

    Conventions of the embedding.  A JSON object is the list of its own
    properties in enumeration order (the order of [Object.keys]), each key
    once.  Where the code looks a name up that comes from the data, the
    lookup also finds the members of [Object.prototype] ([JS.lookup]).  A
    file or language count is an integer ([Z]); JavaScript adds and
    subtracts integers exactly up to 2^53, and the statements that rest on
    such arithmetic say so in a hypothesis; where the code divides, the
    integer is read as the IEEE 754 binary64 number JavaScript computes
    with.  An absent property ([undefined]) is [None]. *)

From Stdlib Require Import ZArith Ascii String DecimalString Floats.SpecFloat.
From stdpp Require Import base list strings sorting.

Open Scope Z_scope.

(** ** JavaScript values and library functions used by the code *)

Module JS.

(** *** Objects used as maps *)

Definition obj (V : Type) : Type := list (string * V).

(** [o[k]] *)
Fixpoint get {V : Type} (o : obj V) (k : string) : option V :=
  match o with
  | [] => None
  | (k', v) :: o' => if String.eqb k' k then Some v else get o' k
  end.

(** [Object.keys(o)] *)
Definition keys {V : Type} (o : obj V) : list string := o.*1.

(** *** Truthiness *)

(** A number is falsy when it is [0], a string when it is empty. *)
Definition truthy_num (n : Z) : bool := negb (n =? 0).
Definition truthy_str (s : string) : bool := negb (String.eqb s "").

(** [v || d] for a possibly absent number [v]. *)
Definition or_num (v : option Z) (d : Z) : Z :=
  match v with
  | Some n => if truthy_num n then n else d
  | None => d
  end.

(** [v || d] for a possibly absent string [v]. *)
Definition or_str (v : option string) (d : string) : string :=
  match v with
  | Some s => if truthy_str s then s else d
  | None => d
  end.

(** The truth value of a possibly absent number, and of a possibly absent
    string: [undefined] is falsy. *)
Definition truthy_num_opt (v : option Z) : bool :=
  match v with Some n => truthy_num n | None => false end.
Definition truthy_str_opt (v : option string) : bool :=
  match v with Some s => truthy_str s | None => false end.

(** *** Lookup by a name that comes from the data

    [o[k]] on a plain object finds the own property [k] of [o]; when [o]
    has no such property it finds the member [k] of [Object.prototype], if
    there is one.  These members are functions, and [__proto__] is the
    prototype itself: all of them are truthy, have none of the properties
    the code reads, and are [NaN] in an arithmetic position. *)

Definition prototype_names : list string :=
  [ "constructor"; "__defineGetter__"; "__defineSetter__"; "hasOwnProperty";
    "__lookupGetter__"; "__lookupSetter__"; "isPrototypeOf";
    "propertyIsEnumerable"; "toString"; "valueOf"; "__proto__";
    "toLocaleString" ].

Definition inherited (k : string) : bool := existsb (String.eqb k) prototype_names.

Inductive found (V : Type) : Type :=
  | Own (v : V)
  | Inherited (k : string).
Arguments Own {V} v.
Arguments Inherited {V} k.

Definition lookup {V : Type} (o : obj V) (k : string) : option (found V) :=
  match get o k with
  | Some v => Some (Own v)
  | None => if inherited k then Some (Inherited k) else None
  end.

(** The truth value of what a lookup gives. *)
Definition truthy_count (v : option (found Z)) : bool :=
  match v with
  | Some (Own n) => truthy_num n
  | Some (Inherited _) => true
  | None => false
  end.

Definition truthy_text (v : option (found string)) : bool :=
  match v with
  | Some (Own s) => truthy_str s
  | Some (Inherited _) => true
  | None => false
  end.

(** [v || 0] for what a lookup of a count gives. *)
Definition or_count (v : option (found Z)) : found Z :=
  match v with
  | Some (Own n) => if truthy_num n then Own n else Own 0
  | Some (Inherited k) => Inherited k
  | None => Own 0
  end.

(** *** Numbers in arithmetic: an integer, or [NaN]

    JavaScript computes with binary64 numbers: it subtracts two integers
    exactly when they and their difference are at most 2^53 in size.  The
    statements about differences bound the counts accordingly. *)

Inductive number : Type :=
  | Int (n : Z)
  | NaN.

(** A value in an arithmetic position. *)
Definition to_number (v : found Z) : number :=
  match v with
  | Own n => Int n
  | Inherited _ => NaN
  end.

(** [a - b] *)
Definition sub (a b : number) : number :=
  match a, b with
  | Int x, Int y => Int (x - y)
  | _, _ => NaN
  end.

(** [Math.abs(a)] *)
Definition abs (a : number) : number :=
  match a with
  | Int x => Int (Z.abs x)
  | NaN => NaN
  end.

(** [a !== b]: [NaN] differs from every number, itself included. *)
Definition differ (a b : number) : bool :=
  match a, b with
  | Int x, Int y => negb (x =? y)
  | _, _ => true
  end.

(** How [Array.prototype.sort] reads the result of a comparison function:
    [NaN] counts as [0]. *)
Definition as_order (x : number) : Z :=
  match x with
  | Int n => n
  | NaN => 0
  end.

(** *** [Set] of strings, in insertion order *)

Definition set_add (s : list string) (x : string) : list string :=
  if bool_decide (x ∈ s) then s else s ++ [x].

(** *** [Array.prototype.sort] with a comparison function

    The sort is stable; [cmp a b < 0] puts [a] before [b]. *)
Section Sort.
Context {A : Type} (cmp : A → A → Z).

Fixpoint sort_insert (x : A) (l : list A) : list A :=
  match l with
  | [] => [x]
  | y :: l' => if cmp x y <=? 0 then x :: y :: l' else y :: sort_insert x l'
  end.

Definition sort (l : list A) : list A := foldr sort_insert [] l.

(** The order the comparison function induces: [a] may stand before [b]. *)
Definition may_precede (a b : A) : Prop := cmp a b ≤ 0.
End Sort.

(** *** Numbers to text *)

(** [String(n)] for an integer [n]. *)
Definition string_of_Z (n : Z) : string := NilZero.string_of_int (Z.to_int n).

(** [parts.join(sep)] *)
Fixpoint join (sep : string) (parts : list string) : string :=
  match parts with
  | [] => ""
  | [p] => p
  | p :: ps => p +:+ sep +:+ join sep ps
  end.

(** [s.split(sep)] for a one-character separator: the pieces between the
    separators, one more than there are separators. *)
Fixpoint split (sep : ascii) (s : string) : list string :=
  match s with
  | EmptyString => [""]
  | String c s' =>
      if Ascii.eqb c sep then "" :: split sep s'
      else match split sep s' with
           | [] => [String c ""]
           | p :: ps => String c p :: ps
           end
  end.

(** Whether the character [c] occurs in [s]. *)
Fixpoint occurs (c : ascii) (s : string) : bool :=
  match s with
  | EmptyString => false
  | String c' s' => Ascii.eqb c' c || occurs c s'
  end.

(** The characters a query string carries as they are: letters, digits,
    [-], [_], [.] and [~]. *)
Definition unreserved (c : ascii) : bool :=
  let n := nat_of_ascii c in
  ((48 <=? n) && (n <=? 57) || (65 <=? n) && (n <=? 90) || (97 <=? n) && (n <=? 122)
   || (n =? 45) || (n =? 95) || (n =? 46) || (n =? 126))%nat.

Fixpoint all_unreserved (s : string) : bool :=
  match s with
  | EmptyString => true
  | String c s' => unreserved c && all_unreserved s'
  end.

(** The rest of [s] after the literal text [lit], when [s] starts with it. *)
Fixpoint strip_prefix (lit s : string) : option string :=
  match lit, s with
  | EmptyString, _ => Some s
  | String a lit', String b s' =>
      if Ascii.eqb a b then strip_prefix lit' s' else None
  | String _ _, EmptyString => None
  end.

(** [s.replace(/^lit/, repl)] for a pattern that is the literal text [lit]
    anchored at the start: the match is replaced when [s] starts with
    [lit], and [s] is returned as it is otherwise. *)
Definition replace_prefix (lit repl s : string) : string :=
  match strip_prefix lit s with
  | Some rest => repl +:+ rest
  | None => s
  end.

(** *** Objects built by spreading

    [{ ...o, [k]: v }]: the property [k] of the copy is [v]; a key that [o]
    has keeps its place, a new key comes last. *)
Fixpoint assign {V : Type} (k : string) (v : V) (o : obj V) : obj V :=
  match o with
  | [] => [(k, v)]
  | (k', v') :: o' =>
      if String.eqb k' k then (k, v) :: o' else (k', v') :: assign k v o'
  end.

(** *** Searching and trimming text

    A text is a sequence of code units below 256. *)

(** The first occurrence of [pat] in [s]: the text before it and the text
    after it. *)
Fixpoint find (pat s : string) : option (string * string) :=
  match strip_prefix pat s with
  | Some rest => Some ("", rest)
  | None =>
      match s with
      | EmptyString => None
      | String c s' =>
          match find pat s' with
          | Some (before, rest) => Some (String c before, rest)
          | None => None
          end
      end
  end.

(** [s.includes(pat)] *)
Definition includes (pat s : string) : bool :=
  match find pat s with Some _ => true | None => false end.

(** White space and line terminators: tab, line feed, vertical tab, form
    feed, carriage return, space and no-break space. *)
Definition is_space (c : ascii) : bool :=
  let n := nat_of_ascii c in
  ((9 <=? n) && (n <=? 13) || (n =? 32) || (n =? 160))%nat.

Fixpoint trim_start (s : string) : string :=
  match s with
  | EmptyString => EmptyString
  | String c s' => if is_space c then trim_start s' else s
  end.

Fixpoint trim_end (s : string) : string :=
  match s with
  | EmptyString => EmptyString
  | String c s' =>
      match trim_end s' with
      | EmptyString => if is_space c then EmptyString else String c EmptyString
      | t => String c t
      end
  end.

(** [s.trim()] *)
Definition trim (s : string) : string := trim_end (trim_start s).

(** A text that is empty or starts with something other than white space. *)
Definition starts_clean (s : string) : Prop :=
  match s with
  | EmptyString => True
  | String c _ => is_space c = false
  end.

End JS.

(** ** Numbers as JavaScript computes with them: IEEE 754 binary64 *)

Module Num.

Definition prec : Z := 53.
Definition emax : Z := 1024.

(** The number an integer literal denotes (the nearest binary64 value). *)
Definition of_Z (n : Z) : spec_float := binary_normalize prec emax n 0 false.

(** A possibly absent number in an arithmetic position: [undefined] is
    [NaN]. *)
Definition of_opt (v : option Z) : spec_float :=
  match v with Some n => of_Z n | None => S754_nan end.

(** What a lookup of a count gives, in an arithmetic position: a member of
    [Object.prototype] is [NaN] there, as [undefined] is. *)
Definition of_found (v : option (JS.found Z)) : spec_float :=
  match v with
  | Some (JS.Own n) => of_Z n
  | Some (JS.Inherited _) => S754_nan
  | None => S754_nan
  end.

Definition div : spec_float → spec_float → spec_float := SFdiv prec emax.
Definition mul : spec_float → spec_float → spec_float := SFmul prec emax.

(** The text of a number.  [Exponent x] stands for [String(x)] of a finite
    [x] of magnitude at least 10^21, which is written in exponent notation;
    its digits are not computed here. *)
Inductive text : Type :=
  | Digits (s : string)
  | Exponent (x : spec_float).

(** The integer [n] for which [n / 10] is closest to [m * 2^e]; the larger
    one when two are equally close. *)
Definition tenths (m : positive) (e : Z) : Z :=
  if 0 <=? e then 10 * Z.pos m * 2 ^ e
  else (20 * Z.pos m + 2 ^ (- e)) / 2 ^ (1 - e).

(** [10^21 <= m * 2^e] *)
Definition at_least_1e21 (m : positive) (e : Z) : bool :=
  if 0 <=? e then 10 ^ 21 <=? Z.pos m * 2 ^ e
  else 10 ^ 21 * 2 ^ (- e) <=? Z.pos m.

(** The digits of [n >= 0] with a point before the last one. *)
Definition point1 (n : Z) : string :=
  JS.string_of_Z (n / 10) +:+ "." +:+ JS.string_of_Z (n mod 10).

(** [x.toFixed(1)] *)
Definition toFixed1 (x : spec_float) : text :=
  match x with
  | S754_nan => Digits "NaN"
  | S754_infinity false => Digits "Infinity"
  | S754_infinity true => Digits "-Infinity"
  | S754_zero _ => Digits "0.0"
  | S754_finite s m e =>
      if at_least_1e21 m e then Exponent x
      else Digits ((if s then "-" else "") +:+ point1 (tenths m e))
  end.

(** [((count / total) * 100).toFixed(1)] *)
Definition percent1 (count total : spec_float) : text :=
  toFixed1 (mul (div count total) (of_Z 100)).

(** *** What ECMAScript asks of [toFixed(1)]

    For a finite [x] of magnitude [m * 2^e] below 10^21: let [n] be the
    integer for which [n / 10 - m * 2^e] is as close to zero as possible,
    the larger one if there are two; the text is the sign of a negative
    [x], the digits of [n] but the last, a point and the last digit. *)
Definition nearest_tenth (m : positive) (e n : Z) : Prop :=
  if 0 <=? e then n = 10 * (Z.pos m * 2 ^ e)
  else - 2 ^ (- e) < 2 * (n * 2 ^ (- e) - 10 * Z.pos m) ≤ 2 ^ (- e).

Definition below_1e21 (m : positive) (e : Z) : Prop :=
  if 0 <=? e then Z.pos m * 2 ^ e < 10 ^ 21
  else Z.pos m < 10 ^ 21 * 2 ^ (- e).

Definition written_to_tenths (x : spec_float) (t : text) : Prop :=
  match x with
  | S754_nan => t = Digits "NaN"
  | S754_infinity s => t = Digits (if s then "-Infinity" else "Infinity")
  | S754_zero _ => t = Digits "0.0"
  | S754_finite s m e =>
      below_1e21 m e →
      ∃ n, 0 ≤ n
           ∧ nearest_tenth m e n
           ∧ t = Digits ((if s then "-" else "")
                           +:+ NilZero.string_of_int (Z.to_int (n / 10)) +:+ "."
                           +:+ NilZero.string_of_int (Z.to_int (n mod 10)))
  end.

End Num.

(** ** The API client of the web UI ([services/web-ui/src/utils/api.js]) *)

Module Api.

Inductive verb : Type := GET | POST | DELETE.

(** What leaves the client: the merged configuration of one request. *)
Record request : Type := {
  method : verb;
  baseURL : string;
  url : string;
  data : option string;
  timeout : Z;
  headers : JS.obj string
}.

(** The defaults of an axios instance. *)
Record defaults : Type := {
  default_baseURL : string;
  default_timeout : Z;
  default_headers : JS.obj string
}.

(** The per-request configuration a call may pass. *)
Record config : Type := {
  config_timeout : option Z;
  config_headers : JS.obj string
}.

(** [axios.create({...})]; the argument is [import.meta.env.VITE_API_BASE_URL]. *)
Definition apiClient (VITE_API_BASE_URL : option string) : defaults :=
  {| default_baseURL :=
       JS.or_str VITE_API_BASE_URL "http://localhost:8080/api/v1/source-code";
     default_timeout := 30000;
     default_headers :=
       [("Content-Type", "application/json"); ("Accept", "application/json")] |}.

(** A header set in the request configuration replaces the default of the
    same name; the others are added. *)
Fixpoint set_header (k v : string) (hs : JS.obj string) : JS.obj string :=
  match hs with
  | [] => [(k, v)]
  | (k', v') :: hs' =>
      if String.eqb k' k then (k, v) :: hs' else (k', v') :: set_header k v hs'
  end.

Definition merge_headers (base extra : JS.obj string) : JS.obj string :=
  foldl (λ hs kv, set_header kv.1 kv.2 hs) base extra.

(** The request interceptor returns the configuration it is given. *)
Definition request_interceptor (r : request) : request := r.

(** [client.get(url)], [client.post(url, data, config)], [client.delete(url)]:
    the configuration of the call is laid over the defaults of the instance
    and handed to the interceptor. *)
Definition send (client : defaults) (m : verb) (u : string)
    (body : option string) (c : option config) : request :=
  request_interceptor
    {| method := m;
       baseURL := default_baseURL client;
       url := u;
       data := body;
       timeout :=
         match c ≫= config_timeout with
         | Some t => t
         | None => default_timeout client
         end;
       headers :=
         match c with
         | Some c' => merge_headers (default_headers client) (config_headers c')
         | None => default_headers client
         end |}.

(** The functions of [apiService], with their arguments.  A payload is an
    opaque text; an argument with a default is optional. *)
Inductive call : Type :=
  | cloneRepository (payload : string)
  | getRepository (repositoryId : string)
  | listRepositories
  | deleteRepository (repositoryId : string)
  | uploadFiles (formData : string)
  | getProject (projectId : string)
  | listProjects
  | listProjectFiles (projectId : string)
  | getFileContent (projectId filePath : string)
  | deleteProject (projectId : string)
  | analyzeCode (payload : string)
  | startAnalysis (projectId payload : string) (fromRepository : option bool)
  | getAnalysisStatus (analysisId : string)
  | getAnalysisResults (analysisId : string)
  | getAnalysisSummary (analysisId : string)
  | listProjectAnalyses (projectId : string)
  | getLatestAnalysis (projectId : string) (analysisType : option string)
  | getProjectAnalysisResults (projectId : string)
      (analysisId analysisType : option string)
  | checkHealth.

Definition string_of_bool (b : bool) : string := if b then "true" else "false".

(** The defaults of the library itself, which a call of [axios.get] outside
    the client gets: no base URL and no timeout. *)
Definition axios : defaults :=
  {| default_baseURL := "";
     default_timeout := 0;
     default_headers := [("Accept", "application/json, text/plain, */*")] |}.

(** The query string of [getProjectAnalysisResults]. *)
Definition results_params (analysisId analysisType : option string) : list string :=
  (if JS.truthy_str_opt analysisId
   then ["analysis_id=" +:+ default "" analysisId] else [])
  ++ (if JS.truthy_str_opt analysisType
      then ["analysis_type=" +:+ default "" analysisType] else []).

(** The request each function of [apiService] issues. *)
Definition issue (env : option string) (c : call) : request :=
  let client := apiClient env in
  match c with
  | cloneRepository payload =>
      send client POST "/github/repositories" (Some payload) None
  | getRepository repositoryId =>
      send client GET ("/github/repositories/" +:+ repositoryId) None None
  | listRepositories =>
      send client GET "/github/repositories" None None
  | deleteRepository repositoryId =>
      send client DELETE ("/github/repositories/" +:+ repositoryId) None None
  | uploadFiles formData =>
      send client POST "/files/upload" (Some formData)
        (Some {| config_timeout := None;
                 config_headers := [("Content-Type", "multipart/form-data")] |})
  | getProject projectId =>
      send client GET ("/files/projects/" +:+ projectId) None None
  | listProjects =>
      send client GET "/files/projects" None None
  | listProjectFiles projectId =>
      send client GET ("/files/projects/" +:+ projectId +:+ "/files") None None
  | getFileContent projectId filePath =>
      send client GET
        ("/files/projects/" +:+ projectId +:+ "/files/" +:+ filePath) None None
  | deleteProject projectId =>
      send client DELETE ("/files/projects/" +:+ projectId) None None
  | analyzeCode payload =>
      send client POST "/analysis/code" (Some payload) None
  | startAnalysis projectId payload fromRepository =>
      send client POST
        ("/analysis/projects/" +:+ projectId +:+ "/analyze?from_repository="
           +:+ string_of_bool (default false fromRepository))
        (Some payload) None
  | getAnalysisStatus analysisId =>
      send client GET ("/analysis/analysis/" +:+ analysisId) None None
  | getAnalysisResults analysisId =>
      send client GET ("/analysis/analysis/" +:+ analysisId +:+ "/results") None None
  | getAnalysisSummary analysisId =>
      send client GET ("/analysis/analysis/" +:+ analysisId +:+ "/summary") None None
  | listProjectAnalyses projectId =>
      send client GET ("/analysis/projects/" +:+ projectId +:+ "/analysis") None None
  | getLatestAnalysis projectId analysisType =>
      let u := "/analysis/projects/" +:+ projectId +:+ "/analysis/latest" in
      send client GET
        (if JS.truthy_str_opt analysisType
         then u +:+ "?analysis_type=" +:+ default "" analysisType else u)
        None None
  | getProjectAnalysisResults projectId analysisId analysisType =>
      let u := "/analysis/projects/" +:+ projectId +:+ "/analysis/results" in
      let params := results_params analysisId analysisType in
      send client GET
        (if bool_decide (0 < length params)%nat
         then u +:+ "?" +:+ JS.join "&" params else u)
        None None
  | checkHealth =>
      send client GET "/health" None None
  end.

End Api.

(** ** The comparison page ([services/web-ui/src/pages/AnalysisComparePage.jsx]) *)

Module Compare.

(** The [code] part of an analysis result document. *)
Record code_section : Type := {
  language_distribution : option (JS.obj Z);
  file_summaries : option (JS.obj string)
}.

(** An analysis result document, with the fields the page computes with.
    [created_at] holds the time value, in milliseconds, that
    [new Date(created_at)] has; [None] is an invalid date. *)
Record analysis : Type := {
  created_at : option Z;
  file_count : option Z;
  code : option code_section
}.

(** [analysis.code?.language_distribution] *)
Definition distribution (a : analysis) : option (JS.obj Z) :=
  code a ≫= language_distribution.

(** [analysis.code?.language_distribution?.[language]] *)
Definition distribution_at (a : analysis) (language : string)
    : option (JS.found Z) :=
  distribution a ≫= λ ld, JS.lookup ld language.

(** [analysis.code?.file_summaries] *)
Definition summaries (a : analysis) : option (JS.obj string) :=
  code a ≫= file_summaries.

(** [analysis.code?.file_summaries?.[file]] *)
Definition summary_at (a : analysis) (file : string) : option (JS.found string) :=
  summaries a ≫= λ fs, JS.lookup fs file.

(** *** [getAgeDifference] *)

Definition plural (n : Z) : string := if n =? 1 then "" else "s".

Definition getAgeDifference (analyses : list analysis) : option string :=
  if bool_decide (length analyses ≠ 2%nat) then None
  else
    match analyses !! 0%nat ≫= created_at, analyses !! 1%nat ≫= created_at with
    | Some date1, Some date2 =>
        let diffTime := Z.abs (date2 - date1) in
        let diffDays := diffTime / (1000 * 60 * 60 * 24) in
        let diffHours := (diffTime mod (1000 * 60 * 60 * 24)) / (1000 * 60 * 60) in
        if 0 <? diffDays
        then Some (JS.string_of_Z diffDays +:+ " day" +:+ plural diffDays +:+ " "
                     +:+ JS.string_of_Z diffHours +:+ " hour" +:+ plural diffHours)
        else Some (JS.string_of_Z diffHours +:+ " hour" +:+ plural diffHours)
    | _, _ =>
        (* an invalid date makes every number here NaN *)
        Some "NaN hours"
    end.

(** *** [compareLanguages] *)

(** A percentage is the number [0] or the text [toFixed(1)] returns. *)
Inductive percentage : Type :=
  | Zero
  | Fixed (t : Num.text).

(** A row of the list.  An entry of [counts] is what the lookup of the
    language gave, or [0]; [diff] is a number. *)
Record language_row : Type := {
  language : string;
  counts : list (JS.found Z);
  percentages : list percentage;
  diff : JS.number
}.

(** The languages of all the documents, each once, in the order a [Set]
    keeps them. *)
Definition languages_of (analyses : list analysis) : list string :=
  foldl
    (λ languages a,
       match distribution a with
       | Some ld => foldl JS.set_add languages (JS.keys ld)
       | None => languages
       end)
    [] analyses.

(** [counts[i]] in an arithmetic position; an index the array does not
    have reads as [undefined], which is [NaN] there. *)
Definition count (counts : list (JS.found Z)) (i : nat) : JS.number :=
  match counts !! i with
  | Some v => JS.to_number v
  | None => JS.NaN
  end.

Definition percentage_of (a : analysis) (language : string) : percentage :=
  if negb (JS.truthy_count (distribution_at a language))
     || negb (JS.truthy_num_opt (file_count a))
  then Zero
  else Fixed (Num.percent1 (Num.of_found (distribution_at a language))
                (Num.of_opt (file_count a))).

Definition row_of (analyses : list analysis) (lang : string) : language_row :=
  let cs := map (λ a, JS.or_count (distribution_at a lang)) analyses in
  {| language := lang;
     counts := cs;
     percentages := map (λ a, percentage_of a lang) analyses;
     diff := JS.sub (count cs 1) (count cs 0) |}.

(** The comparison function of the sort: by absolute difference, then by
    the count of the first analysis. *)
Definition by_change (a b : language_row) : JS.number :=
  let absDiffA := JS.abs (diff a) in
  let absDiffB := JS.abs (diff b) in
  if JS.differ absDiffA absDiffB then JS.sub absDiffB absDiffA
  else JS.sub (count (counts b) 0) (count (counts a) 0).

Definition compareLanguages (analyses : list analysis) : list language_row :=
  if bool_decide (length analyses ≠ 2%nat) then []
  else JS.sort (λ a b, JS.as_order (by_change a b))
         (map (row_of analyses) (languages_of analyses)).

(** *** The file lists of the code-quality section *)

(** [Object.keys(analysis.code?.file_summaries || {})] *)
Definition summary_keys (a : analysis) : list string :=
  JS.keys (default [] (summaries a)).

(** The three filters, before [slice]. *)
Definition commonFiles (a0 a1 : analysis) : list string :=
  List.filter (λ file, JS.truthy_text (summary_at a1 file)) (summary_keys a0).

Definition newFiles (a0 a1 : analysis) : list string :=
  List.filter (λ file, negb (JS.truthy_text (summary_at a0 file))) (summary_keys a1).

Definition removedFiles (a0 a1 : analysis) : list string :=
  List.filter (λ file, negb (JS.truthy_text (summary_at a1 file))) (summary_keys a0).

(** What the page shows: [.slice(0, 5)] and [.slice(0, 6)]. *)
Definition shownCommonFiles (a0 a1 : analysis) : list string :=
  take 5 (commonFiles a0 a1).
Definition shownNewFiles (a0 a1 : analysis) : list string :=
  take 6 (newFiles a0 a1).
Definition shownRemovedFiles (a0 a1 : analysis) : list string :=
  take 6 (removedFiles a0 a1).

(** *** Loading the two analyses *)

(** [searchParams.get('ids')?.split(',') || []]; the argument is the value
    of the [ids] parameter, [None] when the URL has none. *)
Definition analysisIds (ids : option string) : list string :=
  match ids with
  | Some s => JS.split "," s
  | None => []
  end.

(** The state of the page. *)
Record page : Type := {
  analyses : list analysis;
  loading : bool;
  error : option string
}.

Definition initial : page := {| analyses := []; loading := true; error := None |}.

(** The answer of the service to one request: the document, or the message
    of the error the client raises. *)
Inductive response : Type :=
  | Ok (doc : analysis)
  | Failed (message : string).

(** [Promise.all]: every document when all requests succeed, the first
    error otherwise. *)
Fixpoint all (rs : list response) : list analysis + string :=
  match rs with
  | [] => inl []
  | Ok doc :: rs' =>
      match all rs' with
      | inl docs => inl (doc :: docs)
      | inr message => inr message
      end
  | Failed message :: _ => inr message
  end.

(** [fetchAnalyses], run by the effect: the requests it issues, and the
    state of the page when it is done.  [service] answers a request. *)
Definition fetchAnalyses (env : option string) (service : Api.request → response)
    (ids : list string) (p : page) : list Api.request * page :=
  if bool_decide (length ids ≠ 2%nat)
  then ([], {| analyses := analyses p;
               loading := false;
               error := Some "Please select two analyses to compare" |})
  else
    let requests := map (λ id, Api.issue env (Api.getAnalysisResults id)) ids in
    match all (map service requests) with
    | inl docs => (requests, {| analyses := docs; loading := false; error := None |})
    | inr message =>
        (requests, {| analyses := analyses p; loading := false; error := Some message |})
    end.

(** *** Notions for the statements about the page *)

(** The languages a document lists, and the number of files it gives for a
    language: [0] for a language it does not list. *)
Definition listed (a : analysis) : list string :=
  JS.keys (default [] (distribution a)).

Definition files_in (a : analysis) (lang : string) : Z :=
  default 0 (distribution a ≫= λ ld, JS.get ld lang).

(** The absolute difference between the counts the two documents give for
    a language. *)
Definition change (a0 a1 : analysis) (lang : string) : Z :=
  Z.abs (files_in a1 lang - files_in a0 lang).

(** The order of the language list of two documents: the row of the
    language with the larger change first; of two with the same change,
    the one with the larger count in the first document first. *)
Definition ranks_before (a0 a1 : analysis) (r s : language_row) : Prop :=
  change a0 a1 (language s) < change a0 a1 (language r)
  ∨ (change a0 a1 (language r) = change a0 a1 (language s)
     ∧ files_in a0 (language s) ≤ files_in a0 (language r)).

(** A document none of whose languages has the name of a member of
    [Object.prototype], and one whose counts are whole numbers that
    JavaScript subtracts without rounding. *)
Definition plain_languages (a : analysis) : Prop :=
  Forall (λ lang, JS.inherited lang = false) (listed a).

Definition safe_counts (a : analysis) : Prop :=
  Forall (λ entry, 0 ≤ entry.2 ≤ 2 ^ 53) (default [] (distribution a)).

(** A document none of whose files has such a name. *)
Definition plain_files (a : analysis) : Prop :=
  Forall (λ file, JS.inherited file = false) (JS.keys (default [] (summaries a))).

(** A document in which no file has an empty summary. *)
Definition summaries_nonempty (a : analysis) : Prop :=
  ∀ file s, (file, s) ∈ default [] (summaries a) → s ≠ "".

End Compare.

(** ** The language chart
    ([services/web-ui/src/components/visualizations/CodeDistribution.jsx]) *)

Module Chart.

Definition LANGUAGE_COLORS : JS.obj string :=
  [ ("JavaScript", "#f7df1e"); ("TypeScript", "#3178c6"); ("Python", "#3572A5");
    ("Java", "#b07219"); ("C#", "#178600"); ("C++", "#f34b7d"); ("C", "#555555");
    ("Go", "#00ADD8"); ("Ruby", "#701516"); ("PHP", "#4F5D95"); ("Swift", "#ffac45");
    ("Kotlin", "#A97BFF"); ("Rust", "#dea584"); ("Scala", "#c22d40");
    ("HTML", "#e34c26"); ("CSS", "#563d7c"); ("Shell", "#89e051");
    ("Other", "#cccccc") ].

(** [LANGUAGE_COLORS[language] || LANGUAGE_COLORS.Other]; the name of the
    language comes from the data. *)
Definition getLanguageColor (lang : string) : JS.found string :=
  match JS.lookup LANGUAGE_COLORS lang with
  | Some (JS.Own c) =>
      if JS.truthy_str c then JS.Own c
      else JS.Own (default "" (JS.get LANGUAGE_COLORS "Other"))
  | Some (JS.Inherited k) => JS.Inherited k
  | None => JS.Own (default "" (JS.get LANGUAGE_COLORS "Other"))
  end.

Record datum : Type := {
  name : string;
  value : Z;
  color : JS.found string
}.

(** The entries of the distribution, sorted by value, largest first. *)
Definition chartData (languageDistribution : JS.obj Z) : list datum :=
  JS.sort (λ a b, value b - value a)
    (map (λ entry, {| name := entry.1; value := entry.2;
                       color := getLanguageColor entry.1 |})
       languageDistribution).

(** [chartData.reduce((acc, item) => acc + item.value, 0)]; the additions
    are those of JavaScript while no sum on the way exceeds 2^53. *)
Definition totalFiles (data : list datum) : Z :=
  foldl (λ acc item, acc + value item) 0 data.

(** The percentage the tooltip shows for the entry under the pointer. *)
Definition tooltipPercentage (data : list datum) (d : datum) : Num.text :=
  Num.percent1 (Num.of_Z (value d)) (Num.of_Z (totalFiles data)).

(** The "Primary Language %" cell: the percentage followed by ['%'], or the
    text ['0%'] when there is no first entry. *)
Inductive percent_cell : Type :=
  | Percent (t : Num.text)
  | ZeroPercent.

Definition primaryPercentage (data : list datum) : percent_cell :=
  match data !! 0%nat with
  | Some first =>
      Percent (Num.percent1 (Num.of_Z (value first)) (Num.of_Z (totalFiles data)))
  | None => ZeroPercent
  end.

(** What the component renders: nothing but a placeholder without data,
    the chart and its summary cells otherwise. *)
Record summary : Type := {
  data : list datum;
  total_files : Z;
  languages : nat;
  primary_language : string;
  primary_percentage : percent_cell
}.

Definition LanguageDistributionChart (languageDistribution : option (JS.obj Z))
    : option summary :=
  match languageDistribution with
  | None => None
  | Some ld =>
      if bool_decide (length (JS.keys ld) = 0%nat) then None
      else
        let cd := chartData ld in
        Some {| data := cd;
                total_files := totalFiles cd;
                languages := length cd;
                primary_language := JS.or_str (name <$> cd !! 0%nat) "None";
                primary_percentage := primaryPercentage cd |}
  end.

(** The sum of a list of counts, for the statements about the chart. *)
Definition total (ns : list Z) : Z := foldr Z.add 0 ns.

End Chart.

(** ** Polling the status of an analysis
    ([services/web-ui/src/hooks/useAnalysis.js],
     [services/web-ui/src/components/analysis/AnalysisProgress.jsx])

    A step of either loop is one status request together with the handling
    of its answer: the answers are handled in the order of the requests,
    each before the next request is made.  An interval that is set is
    [Some period], in milliseconds; a cleared one is [None]. *)

Module Polling.

(** What the service answers to a status request. *)
Record status_doc : Type := {
  status : string;
  progress : Z;
  error : option string
}.

(** [s === 'completed' || s === 'failed'] *)
Definition terminal (s : string) : bool :=
  String.eqb s "completed" || String.eqb s "failed".

(** *** The hook: [pollAnalysisStatus] *)

Record hook : Type := {
  poll : option Z;
  sent : list Api.request;
  analysisStatus : option status_doc;
  completions : list status_doc
}.

Definition idle : hook :=
  {| poll := None; sent := []; analysisStatus := None; completions := [] |}.

(** [getAnalysisStatus(analysisId)] through [callApi]: the request is sent;
    on success the state is set and the data returned, on an error [null]
    is returned.  [answer] is the data, [None] for an error. *)
Definition getAnalysisStatus (env : option string) (analysisId : string)
    (answer : option status_doc) (h : hook) : option status_doc * hook :=
  (answer,
   {| poll := poll h;
      sent := sent h ++ [Api.issue env (Api.getAnalysisStatus analysisId)];
      analysisStatus :=
        match answer with Some d => Some d | None => analysisStatus h end;
      completions := completions h |}).

(** [pollAnalysisStatus(analysisId, interval = 3000, onComplete)] sets the
    interval. *)
Definition pollAnalysisStatus (interval : option Z) (h : hook) : hook :=
  {| poll := Some (default 3000 interval);
     sent := sent h;
     analysisStatus := analysisStatus h;
     completions := completions h |}.

(** The callback of the interval.  A cleared interval does not call it.
    [onComplete] says whether the caller passed that function. *)
Definition tick (env : option string) (analysisId : string) (onComplete : bool)
    (answer : option status_doc) (h : hook) : hook :=
  match poll h with
  | None => h
  | Some _ =>
      let '(st, h1) := getAnalysisStatus env analysisId answer h in
      match st with
      | Some d =>
          if terminal (status d)
          then {| poll := None;
                  sent := sent h1;
                  analysisStatus := analysisStatus h1;
                  completions :=
                    if onComplete then completions h1 ++ [d] else completions h1 |}
          else h1
      | None => h1
      end
  end.

(** The function [pollAnalysisStatus] returns, for the caller to stop the
    loop: [clearInterval(poll)]. *)
Definition stop (h : hook) : hook :=
  {| poll := None;
     sent := sent h;
     analysisStatus := analysisStatus h;
     completions := completions h |}.

(** The answers of the service, one for each time the interval fires. *)
Definition run (env : option string) (analysisId : string) (onComplete : bool)
    (answers : list (option status_doc)) (h : hook) : hook :=
  foldl (λ h answer, tick env analysisId onComplete answer h) h answers.

(** *** The component: [AnalysisProgress] *)

Record info : Type := {
  color : string;
  label : string
}.

Definition statusMap : JS.obj info :=
  [ ("pending", {| color := "#F59E0B"; label := "Pending" |});
    ("running", {| color := "#3B82F6"; label := "Running" |});
    ("analyzing_code", {| color := "#3B82F6"; label := "Analyzing Code" |});
    ("analyzing_dependencies",
       {| color := "#3B82F6"; label := "Analyzing Dependencies" |});
    ("analyzing_business",
       {| color := "#3B82F6"; label := "Analyzing Business Logic" |});
    ("analyzing_architecture",
       {| color := "#3B82F6"; label := "Analyzing Architecture" |});
    ("completed", {| color := "#10B981"; label := "Completed" |});
    ("failed", {| color := "#EF4444"; label := "Failed" |}) ].

(** [statusMap[status] || { color: '#6B7280', label: 'Unknown' }]; the
    status comes from the service.  An entry of the map is an object and a
    member of [Object.prototype] a function or an object: all are truthy. *)
Definition getStatusInfo (s : string) : JS.found info :=
  match JS.lookup statusMap s with
  | Some v => v
  | None => JS.Own {| color := "#6B7280"; label := "Unknown" |}
  end.

(** [const { color, label } = getStatusInfo(analysisStatus.status)]: a
    member of [Object.prototype] has neither property. *)
Definition shown_color (v : JS.found info) : option string :=
  match v with
  | JS.Own i => Some (color i)
  | JS.Inherited _ => None
  end.

Definition shown_label (v : JS.found info) : option string :=
  match v with
  | JS.Own i => Some (label i)
  | JS.Inherited _ => None
  end.

Record component : Type := {
  shown : status_doc;
  loading : bool;
  interval : option Z;
  requests : list Api.request;
  notified : list status_doc
}.

Definition fresh : component :=
  {| shown := {| status := "pending"; progress := 0; error := None |};
     loading := true;
     interval := None;
     requests := [];
     notified := [] |}.

(** [fetchStatus]: the request, then the state set from the answer, or the
    error recorded when the request fails. *)
Definition fetchStatus (analysisId : string) (answer : option status_doc)
    (c : component) : component :=
  {| shown :=
       match answer with
       | Some d => {| status := status d; progress := progress d; error := error d |}
       | None =>
           {| status := status (shown c);
              progress := progress (shown c);
              error := Some "Failed to fetch analysis status" |}
       end;
     loading := false;
     interval := interval c;
     requests :=
       requests c
         ++ [Api.send Api.axios Api.GET
               ("/api/v1/source-code/analysis/analysis/" +:+ analysisId) None None];
     notified := notified c |}.

(** The clean-up of the effect: [clearInterval(interval)]. *)
Definition cleanup (c : component) : component :=
  {| shown := shown c; loading := loading c; interval := None;
     requests := requests c; notified := notified c |}.

(** The effect, which runs when the component is mounted and again when the
    status it shows has changed: with a terminal status it reports and
    returns; otherwise it calls [fetchStatus] at once and sets the interval.
    That first call is the next step of the loop. *)
Definition effect (onComplete : bool) (c : component) : component :=
  if terminal (status (shown c))
  then {| shown := shown c; loading := loading c; interval := interval c;
          requests := requests c;
          notified := if onComplete then notified c ++ [shown c] else notified c |}
  else {| shown := shown c; loading := loading c; interval := Some 5000;
          requests := requests c; notified := notified c |}.

Definition mount (onComplete : bool) : component := effect onComplete fresh.

(** One call of [fetchStatus] while the loop runs, and the rendering that
    follows: when the status has changed the effect is cleaned up and runs
    again. *)
Definition step (analysisId : string) (onComplete : bool)
    (answer : option status_doc) (c : component) : component :=
  match interval c with
  | None => c
  | Some _ =>
      let c1 := fetchStatus analysisId answer c in
      if String.eqb (status (shown c1)) (status (shown c)) then c1
      else effect onComplete (cleanup c1)
  end.

Definition steps (analysisId : string) (onComplete : bool)
    (answers : list (option status_doc)) (c : component) : component :=
  foldl (λ c answer, step analysisId onComplete answer c) c answers.

(** The states the component reaches from its mounting. *)
Inductive reachable (analysisId : string) (onComplete : bool) : component → Prop :=
  | reach_mount : reachable analysisId onComplete (mount onComplete)
  | reach_step answer c :
      reachable analysisId onComplete c →
      reachable analysisId onComplete (step analysisId onComplete answer c).

(** *** Notions for the statements about the loops *)

(** The answer to a status request carries a terminal status. *)
Definition ends (answer : option status_doc) : Prop :=
  ∃ d, answer = Some d ∧ (status d = "completed" ∨ status d = "failed").

(** While the interval is set its period is 5000 and the status shown is
    not terminal; once it is cleared the status shown is terminal. *)
Definition settled (c : component) : Prop :=
  match interval c with
  | Some p => p = 5000 ∧ terminal (status (shown c)) = false
  | None => terminal (status (shown c)) = true
  end.

(** The component has reported a status exactly when it shows a terminal
    one and was given [onComplete]. *)
Definition reported (oc : bool) (c : component) : Prop :=
  notified c = (if oc && terminal (status (shown c)) then [shown c] else []).

(** Whether an answer ends the loops, the answers up to and with the first
    one that does, and the status document of that one. *)
Definition ending (answer : option status_doc) : bool :=
  match answer with
  | Some d => terminal (status d)
  | None => false
  end.

Fixpoint until_end (answers : list (option status_doc)) : list (option status_doc) :=
  match answers with
  | [] => []
  | answer :: rest =>
      if ending answer then [answer] else answer :: until_end rest
  end.

Fixpoint first_end (answers : list (option status_doc)) : option status_doc :=
  match answers with
  | [] => None
  | answer :: rest =>
      if ending answer then answer else first_end rest
  end.

End Polling.

(** ** The gateway: the route to the source-code service
    ([services/api-gateway/src/config.ts],
     [services/api-gateway/src/routes/sourceCode.ts]) *)

Module Gateway.

(** The text-valued settings of [Config]; [port] plays no part in the route. *)
Record Config : Type := {
  nodeEnv : string;
  corsOrigins : list string;
  sourceCodeServiceUrl : string;
  documentationServiceUrl : string;
  logLevel : string
}.

(** [loadConfig()]; [env] is [process.env]. *)
Definition loadConfig (env : string → option string) : Config :=
  {| nodeEnv := JS.or_str (env "NODE_ENV") "development";
     corsOrigins :=
       if JS.truthy_str_opt (env "CORS_ORIGINS")
       then JS.split "," (default "" (env "CORS_ORIGINS"))
       else ["*"];
     sourceCodeServiceUrl :=
       JS.or_str (env "SOURCE_CODE_SERVICE_URL") "http://source-code-service:8000";
     documentationServiceUrl :=
       JS.or_str (env "DOCUMENTATION_SERVICE_URL") "http://documentation-service:8000";
     logLevel := JS.or_str (env "LOG_LEVEL") "info" |}.

(** *** The body of a request

    [app.ts] installs the parsers [json()] and [urlencoded()] of
    body-parser before the routes.  body-parser and express-http-proxy are
    libraries outside the repository.  Of [json()] the model takes what its
    documentation says: it reads the body of a request whose content type
    is JSON, parses it with [JSON.parse] and leaves the value in
    [req.body], where the text was; a request of another content type
    passes it untouched.  Of express-http-proxy the model takes nothing:
    it is a parameter of the route. *)

(** The values of a part of JSON: arrays, whole numbers, [true], [false]
    and [null]. *)
#[warnings="-register-all"]
Inductive json : Type :=
  | JNull
  | JBool (b : bool)
  | JInt (n : Z)
  | JArr (items : list json).

(** Blanks between the tokens of a JSON text: space, tab, line feed and
    carriage return. *)
Definition is_blank (c : ascii) : bool :=
  let n := nat_of_ascii c in
  ((n =? 32) || (n =? 9) || (n =? 10) || (n =? 13))%nat.

Fixpoint skip (s : string) : string :=
  match s with
  | EmptyString => EmptyString
  | String c s' => if is_blank c then skip s' else s
  end.

Definition is_digit (c : ascii) : bool :=
  let n := nat_of_ascii c in ((48 <=? n) && (n <=? 57))%nat.

Definition digit_value (c : ascii) : Z := Z.of_nat (nat_of_ascii c) - 48.

(** The digits at the start of [s], at most [k] of them, read after the
    number [acc]; [None] when there are more. *)
Fixpoint digits (k : nat) (acc : Z) (s : string) : option (Z * string) :=
  match s with
  | EmptyString => Some (acc, s)
  | String c s' =>
      if is_digit c
      then match k with
           | O => None
           | S k' => digits k' (10 * acc + digit_value c) s'
           end
      else Some (acc, s)
  end.

(** The text after a whole number does not go on as a fraction or an
    exponent. *)
Definition ends_number (s : string) : bool :=
  match s with
  | EmptyString => true
  | String c _ => negb (Ascii.eqb c "." || Ascii.eqb c "e" || Ascii.eqb c "E")
  end.

(** A whole number of at most 15 digits, which JavaScript holds exactly:
    [0], or a digit other than [0] and more digits, with [-] before it when
    it is negative. *)
Definition natural (s : string) : option (Z * string) :=
  match s with
  | EmptyString => None
  | String c r =>
      if Ascii.eqb c "0"
      then match r with
           | EmptyString => Some (0, r)
           | String d _ => if is_digit d || negb (ends_number r) then None else Some (0, r)
           end
      else if is_digit c
      then match digits 14 (digit_value c) r with
           | Some (n, rest) => if ends_number rest then Some (n, rest) else None
           | None => None
           end
      else None
  end.

Definition integer (s : string) : option (Z * string) :=
  match s with
  | EmptyString => None
  | String c r =>
      if Ascii.eqb c "-"
      then match natural r with
           | Some (n, rest) => if n =? 0 then None else Some (- n, rest)
           | None => None
           end
      else natural s
  end.

(** The elements of an array after its first bracket, each read by
    [value], up to the closing bracket. *)
Fixpoint elements (value : string → option (json * string)) (fuel : nat) (s : string)
    : option (list json * string) :=
  match fuel with
  | O => None
  | S fuel' =>
      match value s with
      | None => None
      | Some (v, rest) =>
          match JS.strip_prefix "," (skip rest) with
          | Some r =>
              match elements value fuel' r with
              | Some (vs, r') => Some (v :: vs, r')
              | None => None
              end
          | None =>
              match JS.strip_prefix "]" (skip rest) with
              | Some r => Some ([v], r)
              | None => None
              end
          end
      end
  end.

(** A value at the start of [s], after blanks, and the text that follows
    it. *)
Fixpoint value (fuel : nat) (s : string) : option (json * string) :=
  match fuel with
  | O => None
  | S fuel' =>
      match JS.strip_prefix "null" (skip s) with
      | Some r => Some (JNull, r)
      | None =>
      match JS.strip_prefix "true" (skip s) with
      | Some r => Some (JBool true, r)
      | None =>
      match JS.strip_prefix "false" (skip s) with
      | Some r => Some (JBool false, r)
      | None =>
      match JS.strip_prefix "[" (skip s) with
      | Some r =>
          match JS.strip_prefix "]" (skip r) with
          | Some r' => Some (JArr [], r')
          | None =>
              match elements (value fuel') fuel' r with
              | Some (vs, r') => Some (JArr vs, r')
              | None => None
              end
          end
      | None =>
          match integer (skip s) with
          | Some (n, r) => Some (JInt n, r)
          | None => None
          end
      end end end end
  end.

(** [JSON.parse(s)] for a text of this part of JSON.  [None]: the text is
    not one (it may be no JSON, or JSON that the model does not read: an
    object, a string, a fraction, a longer number, [-0]). *)
Definition parse (s : string) : option json :=
  match value (S (String.length s)) s with
  | Some (v, rest) =>
      match skip rest with
      | EmptyString => Some v
      | String _ _ => None
      end
  | None => None
  end.

(** The content type of a request, as the parsers of [app.ts] tell them
    apart: one that [json()] reads, one that [urlencoded()] reads, any
    other. *)
Inductive media : Type := JsonBody | FormBody | OtherBody.

(** What a middleware finds as the body of the request: the text that was
    sent, not read yet, or the value a parser has left in [req.body]. *)
Inductive payload : Type :=
  | Text (raw : string)
  | Parsed (v : json).

(** A request as a route sees it: [url] is the path with its query string. *)
Record request : Type := {
  method : string;
  url : string;
  contentType : media;
  body : payload
}.

(** [app.use(json({ limit: '10mb' }))], for a body within the limit: the
    request as the next middleware gets it.  In its strict mode, the
    default, the parser takes arrays and objects only.  [None]: the model
    does not say (the body is no JSON of the part modelled, or it is a form,
    which [urlencoded()] reads). *)
Definition json_parser (req : request) : option request :=
  match contentType req, body req with
  | JsonBody, Text raw =>
      match parse raw with
      | Some (JArr items) =>
          Some {| method := method req; url := url req;
                  contentType := contentType req; body := Parsed (JArr items) |}
      | _ => None
      end
  | OtherBody, _ => Some req
  | _, _ => None
  end.

(** [req.url.replace(/^\/api\/v1\/source-code/, '')] *)
Definition proxyReqPathResolver (req : request) : string :=
  JS.replace_prefix "/api/v1/source-code" "" (url req).

(** [sourceCodeRouter.all('/*', proxy(config.sourceCodeServiceUrl,
    { proxyReqPathResolver }))]: the route hands every request to the
    middleware that [proxy] of express-http-proxy makes of the address and
    the resolver.  [proxy] is the library, whatever it does. *)
Definition sourceCodeRouter {F : Type}
    (proxy : string → (request → string) → request → F)
    (env : string → option string) (req : request) : F :=
  proxy (sourceCodeServiceUrl (loadConfig env)) proxyReqPathResolver req.

(** [createApp], for a request to the source-code route: the parser first,
    then the route. *)
Definition createApp {F : Type}
    (proxy : string → (request → string) → request → F)
    (env : string → option string) (req : request) : option F :=
  match json_parser req with
  | Some parsed => Some (sourceCodeRouter proxy env parsed)
  | None => None
  end.

End Gateway.

(** ** Selecting analyses to compare
    ([services/web-ui/src/pages/AnalysisHistoryPage.jsx]) *)

Module History.

Definition toggleAnalysisSelection (selectedAnalyses : list string)
    (analysisId : string) : list string :=
  if bool_decide (analysisId ∈ selectedAnalyses)
  then List.filter (λ id, negb (String.eqb id analysisId)) selectedAnalyses
  else if bool_decide (length selectedAnalyses < 2)%nat
  then selectedAnalyses ++ [analysisId]
  else
    match selectedAnalyses !! 1%nat with
    | Some second => [second; analysisId]
    | None => [analysisId] (* not reached: two or more are selected here *)
    end.

(** [handleCompare]: the address the page navigates to, if it does. *)
Definition handleCompare (selectedAnalyses : list string) : option string :=
  if bool_decide (length selectedAnalyses = 2%nat)
  then Some ("/analysis/compare?ids=" +:+ JS.join "," selectedAnalyses)
  else None.

(** What the user can do with the selection. *)
Inductive action : Type :=
  | Toggle (analysisId : string)
  | Clear
  | Compare.

(** The selection, and the addresses navigated to so far. *)
Record state : Type := {
  selectedAnalyses : list string;
  visited : list string
}.

Definition start : state := {| selectedAnalyses := []; visited := [] |}.

Definition act (s : state) (a : action) : state :=
  match a with
  | Toggle analysisId =>
      {| selectedAnalyses := toggleAnalysisSelection (selectedAnalyses s) analysisId;
         visited := visited s |}
  | Clear => {| selectedAnalyses := []; visited := visited s |}
  | Compare =>
      {| selectedAnalyses := selectedAnalyses s;
         visited :=
           match handleCompare (selectedAnalyses s) with
           | Some address => visited s ++ [address]
           | None => visited s
           end |}
  end.

Definition after (actions : list action) : state := foldl act start actions.

(** An address of the comparison page for two different analyses. *)
Definition compares_two (address : string) : Prop :=
  ∃ id1 id2, id1 ≠ id2 ∧ address = "/analysis/compare?ids=" +:+ id1 +:+ "," +:+ id2.

End History.

(** ** The sections of the comparison page
    ([AnalysisComparePage.jsx]: [expandedSections], [toggleSection]) *)

Module Sections.

Definition expandedSections : JS.obj bool :=
  [ ("summary", true); ("languages", true); ("dependencies", false);
    ("code", false); ("architecture", false) ].

(** [{ ...expandedSections, [section]: !expandedSections[section] }]; a
    section the object does not have reads as [undefined], which is falsy. *)
Definition toggleSection (sections : JS.obj bool) (section : string) : JS.obj bool :=
  JS.assign section (negb (default false (JS.get sections section))) sections.

End Sections.

(** ** The error the API client hands to its callers
    ([api.js]: the response interceptor) *)

Module ApiError.

(** The response of the service, when there is one: its status and its
    body, an object of texts. *)
Record response : Type := {
  status : option Z;
  data : option (JS.obj string)
}.

(** The error axios raises. *)
Record failure : Type := {
  reply : option response;
  message : option string
}.

Record customError : Type := {
  statusCode : Z;
  error_message : string;
  error_data : JS.obj string;
  originalError : failure
}.

(** [error.response?.data] and [error.response?.data?.message] *)
Definition reply_data (error : failure) : option (JS.obj string) :=
  match reply error with Some r => data r | None => None end.

Definition reply_message (error : failure) : option string :=
  match reply_data error with Some d => JS.get d "message" | None => None end.

(** The handler of a rejected response: it rejects with this error. *)
Definition on_rejected (error : failure) : customError :=
  {| statusCode :=
       JS.or_num (match reply error with Some r => status r | None => None end) 500;
     error_message :=
       JS.or_str (reply_message error) (JS.or_str (message error) "Unknown error");
     error_data := default [] (reply_data error);
     originalError := error |}.

End ApiError.

(** ** The hooks over the API client
    ([useApi] in [useProjects.js], [useRepositories.js]) *)

Module Hooks.

(** The state [useApi] keeps. *)
Record api : Type := {
  loading : bool;
  error : option string
}.

(** How a call of the API ends: with the data of the response, or rejected
    with the message of an error. *)
Inductive outcome (D : Type) : Type :=
  | Resolved (data : D)
  | Rejected (message : string).
Arguments Resolved {D} data.
Arguments Rejected {D} message.

(** [callApi(apiCall, onSuccess)]: what it returns ([None] is [null]), the
    state of the caller after [onSuccess], and the state of [useApi] when
    the call is over. *)
Definition callApi {D S : Type} (apiCall : outcome D)
    (onSuccess : option (D → S → S)) (st : S) : option D * S * api :=
  match apiCall with
  | Resolved data =>
      (Some data,
       match onSuccess with Some f => f data st | None => st end,
       {| loading := false; error := None |})
  | Rejected message =>
      (None, st, {| loading := false; error := Some message |})
  end.

Record repository : Type := {
  id : string;
  url : string
}.

(** [fetchRepositories]: [setRepositories(data || [])]. *)
Definition fetchRepositories (apiCall : outcome (option (list repository)))
    (repositories : list repository) : option (option (list repository)) * list repository * api :=
  callApi apiCall (Some (λ data _, default [] data)) repositories.

(** [deleteRepository(repositoryId)]. *)
Definition deleteRepository (repositoryId : string) (apiCall : outcome unit)
    (repositories : list repository) : option unit * list repository * api :=
  callApi apiCall
    (Some (λ _ prev, List.filter (λ r, negb (String.eqb (id r) repositoryId)) prev))
    repositories.

End Hooks.

(** ** The error responses of the gateway
    ([errorHandler.ts], [routeNotFound.ts]) *)

Module Middleware.

Record AppError : Type := {
  message : option string;
  statusCode : option Z;
  code : option string
}.

(** [res.status(status).json({ error: { code, message } })] *)
Record reply : Type := {
  status : Z;
  error_code : string;
  error_message : string
}.

(** [StatusCodes.INTERNAL_SERVER_ERROR] of http-status-codes. *)
Definition INTERNAL_SERVER_ERROR : Z := 500.

Definition errorHandler (err : AppError) : reply :=
  {| status := JS.or_num (statusCode err) INTERNAL_SERVER_ERROR;
     error_code := JS.or_str (code err) "INTERNAL_ERROR";
     error_message := JS.or_str (message err) "Something went wrong" |}.

(** [req.method] and [req.path] of the request no route has answered. *)
Definition routeNotFound (method path : string) : reply :=
  {| status := 404;
     error_code := "ROUTE_NOT_FOUND";
     error_message := "Route not found: " +:+ method +:+ " " +:+ path |}.

End Middleware.

(** ** The dependency graph ([DependencyGraph.jsx]: [parseDependencyArray]) *)

Module Graph.

Record dependency : Type := {
  source : option string;
  target : option string
}.

Record node : Type := {
  id : string;
  label : string
}.

Record link : Type := {
  link_source : string;
  link_target : string
}.

Record graph : Type := {
  nodes : list node;
  links : list link
}.

(** One round of [dependencies.forEach]: a dependency with a source and a
    target adds both to the set of nodes and a link to the list. *)
Definition add_dependency (acc : list string * list link) (dep : dependency)
    : list string * list link :=
  match source dep, target dep with
  | Some s, Some t =>
      if JS.truthy_str s && JS.truthy_str t
      then (JS.set_add (JS.set_add acc.1 s) t,
            acc.2 ++ [{| link_source := s; link_target := t |}])
      else acc
  | _, _ => acc
  end.

Definition parseDependencyArray (dependencies : list dependency) : graph :=
  let acc := foldl add_dependency ([], []) dependencies in
  {| nodes := map (λ i, {| id := i; label := i |}) acc.1;
     links := acc.2 |}.

(** What [forEach] keeps: the names are all different and not empty, every
    link joins two of them and every name is an end of a link. *)
Definition tidy (acc : list string * list link) : Prop :=
  NoDup acc.1
  ∧ Forall (λ n, n ≠ "") acc.1
  ∧ Forall (λ l, link_source l ∈ acc.1 ∧ link_target l ∈ acc.1) acc.2
  ∧ Forall (λ n, Exists (λ l, link_source l = n ∨ link_target l = n) acc.2) acc.1.

End Graph.

(** ** The list of the history page
    ([AnalysisHistoryPage.jsx]: [fetchRepositoryAndAnalyses],
     [getFilteredAndSortedAnalyses]) *)

Module Listing.

(** An analysis as the list shows it.  [created_at] holds the time value of
    [new Date(created_at)], [None] for an invalid date. *)
Record item : Type := {
  analysis_id : string;
  status : string;
  created_at : option Z;
  analysis_types : option (list string)
}.

Record filters : Type := {
  by_status : string;
  dateRange : string;
  by_type : string
}.

(** The instants [Date] computes in local time from the present one: the
    start of today, the same time seven days ago and a month ago. *)
Record clock : Type := {
  midnight : Z;
  week_ago : Z;
  month_ago : Z
}.

(** The start date of a range other than ['all']. *)
Definition startDate (c : clock) (range : string) : Z :=
  if String.eqb range "today" then midnight c
  else if String.eqb range "week" then week_ago c
  else if String.eqb range "month" then month_ago c
  else 0.

(** [new Date(analysis.created_at) >= startDate]; no comparison with an
    invalid date holds. *)
Definition on_or_after (start : Z) (a : item) : bool :=
  match created_at a with
  | Some t => start <=? t
  | None => false
  end.

(** [analysis.analysis_types && analysis.analysis_types.includes(type)] *)
Definition has_type (type : string) (a : item) : bool :=
  match analysis_types a with
  | Some types => bool_decide (type ∈ types)
  | None => false
  end.

(** [new Date(a) - new Date(b)] as the sort reads it: a comparison function
    that returns [NaN] counts as returning [0]. *)
Definition minus (a b : option Z) : Z :=
  match a, b with
  | Some x, Some y => x - y
  | _, _ => 0
  end.

(** The comparison function of the sort.  [collate] is [localeCompare]. *)
Definition order (collate : string → string → Z) (sortBy : string) (a b : item) : Z :=
  if String.eqb sortBy "date-asc" then minus (created_at a) (created_at b)
  else if String.eqb sortBy "date-desc" then minus (created_at b) (created_at a)
  else if String.eqb sortBy "status" then collate (status a) (status b)
  else minus (created_at b) (created_at a).

(** The three filters, each applied unless it is set to ['all']. *)
Definition filtered (c : clock) (analyses : list item) (f : filters) : list item :=
  let l1 :=
    if negb (String.eqb (by_status f) "all")
    then List.filter (λ a, String.eqb (status a) (by_status f)) analyses
    else analyses in
  let l2 :=
    if negb (String.eqb (dateRange f) "all")
    then List.filter (on_or_after (startDate c (dateRange f))) l1
    else l1 in
  if negb (String.eqb (by_type f) "all")
  then List.filter (has_type (by_type f)) l2
  else l2.

Definition getFilteredAndSortedAnalyses (c : clock) (collate : string → string → Z)
    (analyses : list item) (f : filters) (sortBy : string) : list item :=
  JS.sort (order collate sortBy) (filtered c analyses f).

(** The time of an analysis with a valid date. *)
Definition time (a : item) : Z := default 0 (created_at a).

(** *** Loading the list *)

Record repository : Type := {
  owner : string;
  repo : string
}.

Record project : Type := {
  id : string;
  name : string
}.

Inductive answer (A : Type) : Type :=
  | Ok (data : A)
  | Failed (message : string).
Arguments Ok {A} data.
Arguments Failed {A} message.

(** What the service answers to the three kinds of request. *)
Record service : Type := {
  repository_of : Api.request → answer repository;
  projects_of : Api.request → answer (list project);
  analyses_of : Api.request → answer (list item)
}.

Record page : Type := {
  shown_repository : option repository;
  analyses : list item;
  loading : bool;
  error : option string
}.

(** [project.name === repoName || project.name.includes(repoName)] *)
Definition matches (repoName : string) (p : project) : bool :=
  String.eqb (name p) repoName || JS.includes repoName (name p).

(** [Promise.all]: every list when all requests succeed, the first error
    otherwise. *)
Fixpoint all (rs : list (answer (list item))) : list (list item) + string :=
  match rs with
  | [] => inl []
  | Ok l :: rs' =>
      match all rs' with
      | inl ls => inl (l :: ls)
      | inr message => inr message
      end
  | Failed message :: _ => inr message
  end.

Definition failed (p : page) (shown : option repository) (message : string) : page :=
  {| shown_repository := shown; analyses := analyses p;
     loading := false; error := Some message |}.

(** [fetchRepositoryAndAnalyses]: the requests it sends, in order, and the
    page when it is done. *)
Definition fetchRepositoryAndAnalyses (env : option string) (svc : service)
    (repositoryId : string) (p : page) : list Api.request * page :=
  let r1 := Api.issue env (Api.getRepository repositoryId) in
  match repository_of svc r1 with
  | Failed message => ([r1], failed p (shown_repository p) message)
  | Ok rp =>
      let r2 := Api.issue env Api.listProjects in
      match projects_of svc r2 with
      | Failed message => ([r1; r2], failed p (Some rp) message)
      | Ok projects =>
          let repoName := owner rp +:+ "/" +:+ repo rp in
          let matchingProjects := List.filter (matches repoName) projects in
          if bool_decide (length matchingProjects = 0%nat)
          then ([r1; r2],
                failed p (Some rp) "No projects found for this repository")
          else
            let rs :=
              map (λ pr, Api.issue env (Api.listProjectAnalyses (id pr)))
                matchingProjects in
            match all (map (analyses_of svc) rs) with
            | inl lists =>
                (r1 :: r2 :: rs,
                 {| shown_repository := Some rp;
                    analyses := concat lists;
                    loading := false;
                    error := None |})
            | inr message => (r1 :: r2 :: rs, failed p (Some rp) message)
            end
      end
  end.

End Listing.

(** ** The text of an analysis with its diagrams
    ([AnalysisResultsPage.jsx]: [processMermaidDiagrams]) *)

Module Results.

(** What is rendered: a block of text, or a diagram given by its code. *)
Inductive element : Type :=
  | Pre (text : string)
  | Diagram (code : string).

(** A stretch of text between diagrams is shown when it is more than white
    space. *)
Definition pre_piece (text : string) : list element :=
  if JS.truthy_str (JS.trim text) then [Pre text] else [].

(** The loop over the matches of the pattern, a fence that opens with
    "```mermaid" and closes with the next "```".  White space after the
    opening is matched by [\s*] and the rest, up to the closing, by the
    group; the group is trimmed, which comes to trimming all that stands
    between the two fences.  [rest] is the text from [lastIndex] on.  Each
    match takes at least the two fences off [rest]; [fuel] bounds the
    number of matches. *)
Fixpoint scan (fuel : nat) (rest : string) : list element :=
  match fuel with
  | O => pre_piece rest
  | S fuel' =>
      match JS.find "```mermaid" rest with
      | None => pre_piece rest
      | Some (before, opened) =>
          match JS.find "```" opened with
          | None => pre_piece rest
          | Some (content, after) =>
              pre_piece before ++ Diagram (JS.trim content) :: scan fuel' after
          end
      end
  end.

(** [null] for no text; the elements otherwise, the whole text when the
    loop has made none. *)
Definition processMermaidDiagrams (text : string) : option (list element) :=
  if negb (JS.truthy_str text) then None
  else
    match scan (String.length text) text with
    | [] => Some [Pre text]
    | elements => Some elements
    end.

(** What the loop may put out for a text: a block that stands in the text
    and is more than white space, or a diagram whose code is trimmed and
    free of fences. *)
Definition well_made (text : string) (e : element) : Prop :=
  match e with
  | Pre t => (∃ l r, text = l +:+ t +:+ r) ∧ JS.trim t ≠ ""
  | Diagram code => JS.trim code = code ∧ JS.includes "```" code = false
  end.

End Results.


(** * Properties *)

(** ** The library functions *)

Section SortFacts.
Context {A : Type} (cmp : A → A → Z).

Local Abbreviation may_precede := (JS.may_precede cmp).

Lemma sort_insert_perm (x : A) (l : list A) : JS.sort_insert cmp x l ≡ₚ x :: l.
Proof.
  induction l as [|y l IH]; simpl; [done|].
  destruct (cmp x y <=? 0); [done|].
  rewrite IH. apply Permutation_swap.
Qed.

Lemma sort_perm (l : list A) : JS.sort cmp l ≡ₚ l.
Proof.
  induction l as [|x l IH]; simpl; [done|].
  fold (JS.sort cmp l). rewrite sort_insert_perm. by rewrite IH.
Qed.

Hypothesis cmp_total : ∀ a b, 0 < cmp a b → cmp b a ≤ 0.

Lemma sort_insert_hd (x y : A) (l : list A) :
  may_precede y x → HdRel may_precede y l → HdRel may_precede y (JS.sort_insert cmp x l).
Proof.
  intros Hyx Hl. destruct l as [|z l]; simpl.
  - by constructor.
  - destruct (cmp x z <=? 0); constructor; [done|].
    by inversion Hl.
Qed.

Lemma sort_insert_sorted (x : A) (l : list A) :
  Sorted may_precede l → Sorted may_precede (JS.sort_insert cmp x l).
Proof.
  induction 1 as [|y l Hs IH Hhd]; simpl.
  - repeat constructor.
  - destruct (cmp x y <=? 0) eqn:Hc.
    + constructor; [by constructor|].
      constructor. unfold JS.may_precede. lia.
    + constructor; [done|].
      apply sort_insert_hd; [|done].
      unfold JS.may_precede. apply cmp_total. lia.
Qed.

Lemma sort_sorted (l : list A) : Sorted may_precede (JS.sort cmp l).
Proof.
  induction l as [|x l IH]; simpl; [constructor|].
  by apply sort_insert_sorted.
Qed.

Lemma sort_strongly_sorted (l : list A) :
  Transitive may_precede → StronglySorted may_precede (JS.sort cmp l).
Proof. intros ?. apply Sorted_StronglySorted; [done|]. apply sort_sorted. Qed.

End SortFacts.

Lemma sort_insert_ext {A : Type} (f g : A → A → Z) (x : A) (l : list A) :
  (∀ y, y ∈ l → f x y = g x y) → JS.sort_insert f x l = JS.sort_insert g x l.
Proof.
  induction l as [|y l IH]; intros H; simpl; [done|].
  rewrite (H y) by constructor.
  destruct (g x y <=? 0); [done|].
  f_equal. apply IH. intros z Hz. apply H. by constructor.
Qed.

(** Two comparison functions that agree on the members of a list sort it
    alike. *)
Lemma sort_ext {A : Type} (f g : A → A → Z) (l : list A) :
  (∀ x y, x ∈ l → y ∈ l → f x y = g x y) → JS.sort f l = JS.sort g l.
Proof.
  induction l as [|x l IH]; intros H; simpl; [done|].
  fold (JS.sort f l). fold (JS.sort g l).
  rewrite IH by (intros a b Ha Hb; apply H; by constructor).
  apply sort_insert_ext. intros y Hy. rewrite sort_perm in Hy.
  apply H; by constructor.
Qed.

(** A relation that holds between the members of a list wherever another one
    does can take its place in [StronglySorted]. *)
Lemma StronglySorted_among {A : Type} (R S : A → A → Prop) (l : list A) :
  (∀ a b, a ∈ l → b ∈ l → R a b → S a b) →
  StronglySorted R l → StronglySorted S l.
Proof.
  intros HRS Hl. induction Hl as [|x l Hl IH Hx]; constructor.
  - apply IH. intros a b Ha Hb. apply HRS; by constructor.
  - apply Forall_forall. intros b Hb.
    apply HRS; [by constructor|by constructor|].
    by apply (proj1 (Forall_forall _ _) Hx).
Qed.

Lemma set_add_elem (s : list string) (x y : string) :
  y ∈ JS.set_add s x ↔ y ∈ s ∨ y = x.
Proof.
  unfold JS.set_add. case_bool_decide as Hx.
  - split; [by left|]. intros [?| ->]; done.
  - rewrite elem_of_app, list_elem_of_singleton. done.
Qed.

Lemma set_add_NoDup (s : list string) (x : string) :
  NoDup s → NoDup (JS.set_add s x).
Proof.
  intros Hs. unfold JS.set_add. case_bool_decide as Hx; [done|].
  apply NoDup_app. split_and!; [done| |apply NoDup_singleton].
  intros y Hy ->%list_elem_of_singleton. done.
Qed.

Lemma set_add_all_elem (xs s : list string) (y : string) :
  y ∈ foldl JS.set_add s xs ↔ y ∈ s ∨ y ∈ xs.
Proof.
  revert s. induction xs as [|x xs IH]; intros s; simpl.
  - rewrite elem_of_nil. tauto.
  - rewrite IH, set_add_elem, elem_of_cons. tauto.
Qed.

Lemma set_add_all_NoDup (xs s : list string) :
  NoDup s → NoDup (foldl JS.set_add s xs).
Proof.
  revert s. induction xs as [|x xs IH]; intros s Hs; simpl; [done|].
  by apply IH, set_add_NoDup.
Qed.

(** ** Lookups *)

Lemma lookup_plain {V : Type} (o : JS.obj V) (k : string) :
  JS.inherited k = false → JS.lookup o k = JS.Own <$> JS.get o k.
Proof. intros Hk. unfold JS.lookup. rewrite Hk. by destruct (JS.get o k). Qed.

Lemma lookup_own {V : Type} (o : JS.obj V) (k : string) (v : V) :
  JS.get o k = Some v → JS.lookup o k = Some (JS.Own v).
Proof. intros Hget. unfold JS.lookup. by rewrite Hget. Qed.

(** ** The comparison page: languages *)

Section LanguageRows.
Import Compare.

Lemma or_count_plain (a : analysis) (lang : string) :
  JS.inherited lang = false →
  JS.or_count (distribution_at a lang) = JS.Own (files_in a lang).
Proof.
  intros Hl. unfold distribution_at, files_in.
  destruct (distribution a) as [ld|]; simpl; [|done].
  rewrite lookup_plain by done.
  destruct (JS.get ld lang) as [n|]; simpl; [|done].
  unfold JS.truthy_num. by destruct (Z.eqb_spec n 0) as [->|].
Qed.

(** The row of a language whose name is not one of [Object.prototype]
    holds the counts of the two documents and their difference. *)
Lemma row_of_plain (a0 a1 : analysis) (lang : string) :
  JS.inherited lang = false →
  counts (row_of [a0; a1] lang)
  = [JS.Own (files_in a0 lang); JS.Own (files_in a1 lang)]
  ∧ diff (row_of [a0; a1] lang) = JS.Int (files_in a1 lang - files_in a0 lang).
Proof.
  intros Hl. unfold row_of. simpl. by rewrite !or_count_plain.
Qed.

Lemma languages_of_elem (a0 a1 : analysis) (lang : string) :
  lang ∈ languages_of [a0; a1] ↔ lang ∈ listed a0 ∨ lang ∈ listed a1.
Proof.
  unfold languages_of, listed; simpl.
  destruct (distribution a0) as [ld0|], (distribution a1) as [ld1|]; simpl;
    rewrite ?set_add_all_elem, ?elem_of_nil; unfold JS.keys; simpl;
    rewrite ?elem_of_nil; tauto.
Qed.

Lemma languages_of_plain (a0 a1 : analysis) (lang : string) :
  plain_languages a0 → plain_languages a1 →
  lang ∈ languages_of [a0; a1] → JS.inherited lang = false.
Proof.
  unfold plain_languages. rewrite !Forall_forall, languages_of_elem.
  intros P0 P1 [?|?]; auto.
Qed.

Lemma languages_of_NoDup (analyses : list analysis) : NoDup (languages_of analyses).
Proof.
  unfold languages_of.
  assert (∀ acc, NoDup acc →
    NoDup (foldl (λ languages a,
      match distribution a with
      | Some ld => foldl JS.set_add languages (JS.keys ld)
      | None => languages
      end) acc analyses)) as H.
  { induction analyses as [|a rest IH]; intros acc Hacc; simpl; [done|].
    apply IH. destruct (distribution a); [by apply set_add_all_NoDup|done]. }
  apply H, NoDup_nil_2.
Qed.

Lemma compareLanguages_two (a0 a1 : analysis) :
  compareLanguages [a0; a1]
  = JS.sort (λ a b, JS.as_order (by_change a b))
      (map (row_of [a0; a1]) (languages_of [a0; a1])).
Proof. reflexivity. Qed.

Lemma compareLanguages_perm (a0 a1 : analysis) :
  compareLanguages [a0; a1] ≡ₚ map (row_of [a0; a1]) (languages_of [a0; a1]).
Proof. rewrite compareLanguages_two. apply sort_perm. Qed.

Lemma compareLanguages_row (a0 a1 : analysis) (r : language_row) :
  r ∈ compareLanguages [a0; a1] →
  ∃ lang, lang ∈ languages_of [a0; a1] ∧ r = row_of [a0; a1] lang.
Proof.
  rewrite compareLanguages_perm. intros (lang & -> & Hl)%list_elem_of_fmap.
  by exists lang.
Qed.

(** On the rows of two documents with plain language names the comparison
    function of the code compares the counts of the documents. *)
Lemma by_change_plain (a0 a1 : analysis) (la lb : string) :
  JS.inherited la = false → JS.inherited lb = false →
  JS.as_order (by_change (row_of [a0; a1] la) (row_of [a0; a1] lb))
  = if negb (change a0 a1 la =? change a0 a1 lb)
    then change a0 a1 lb - change a0 a1 la
    else files_in a0 lb - files_in a0 la.
Proof.
  intros Ha Hb. unfold by_change. cbv zeta.
  destruct (row_of_plain a0 a1 la Ha) as [Ca Da].
  destruct (row_of_plain a0 a1 lb Hb) as [Cb Db].
  rewrite Ca, Cb, Da, Db. simpl. unfold change.
  by destruct (negb _).
Qed.





(** A language that has the name of a member of [Object.prototype] and that
    only one document lists: the lookup in the other document finds the
    member, the count shown for that document is not a number and the
    difference is [NaN]. *)
Example compareLanguages_inherited_name :
  let older := {| created_at := None; file_count := Some 2;
                  code := Some {| language_distribution := Some [("Go", 2)];
                                  file_summaries := None |} |} in
  let newer := {| created_at := None; file_count := Some 5;
                  code := Some {| language_distribution :=
                                    Some [("Go", 2); ("constructor", 3)];
                                  file_summaries := None |} |} in
  (λ r, (language r, counts r, diff r)) <$> compareLanguages [older; newer]
  = [ ("Go", [JS.Own 2; JS.Own 2], JS.Int 0);
      ("constructor", [JS.Inherited "constructor"; JS.Own 3], JS.NaN) ].
Proof. reflexivity. Qed.

End LanguageRows.

(** ** The comparison page: file lists *)

Section FileLists.
Import Compare.

Lemma get_Some_key {V : Type} (o : JS.obj V) (k : string) (v : V) :
  JS.get o k = Some v → k ∈ JS.keys o ∧ (k, v) ∈ o.
Proof.
  induction o as [|[k' v'] o IH]; simpl; [done|].
  destruct (String.eqb_spec k' k) as [->|Hne].
  - intros [= ->]. split; constructor.
  - intros [??]%IH. split; by constructor.
Qed.

Lemma get_key_Some {V : Type} (o : JS.obj V) (k : string) :
  k ∈ JS.keys o → ∃ v, JS.get o k = Some v ∧ (k, v) ∈ o.
Proof.
  induction o as [|[k' v'] o IH]; simpl.
  - by intros ?%elem_of_nil.
  - destruct (String.eqb_spec k' k) as [->|Hne].
    + intros _. exists v'. split; [done|constructor].
    + intros [?|Hk]%elem_of_cons; [done|].
      destruct (IH Hk) as (v & ? & ?). exists v. split; [done|by constructor].
Qed.

Lemma summary_at_truthy_key (a : analysis) (file : string) :
  JS.truthy_text (summary_at a file) = true →
  file ∈ summary_keys a ∨ JS.inherited file = true.
Proof.
  unfold summary_at, summary_keys.
  destruct (summaries a) as [fs|]; simpl; [|done].
  unfold JS.lookup.
  destruct (JS.get fs file) as [s|] eqn:Hget.
  - intros _. left. by apply get_Some_key in Hget as [? _].
  - destruct (JS.inherited file); [by right|done].
Qed.

Lemma plain_files_key (a : analysis) (file : string) :
  plain_files a → file ∈ summary_keys a → JS.inherited file = false.
Proof.
  unfold plain_files, summary_keys. rewrite Forall_forall. auto.
Qed.

(** When no file of the second document has the name of a member of
    [Object.prototype], every key of either document is in one of the
    three lists, and the lists hold nothing else. *)
Lemma file_lists_cover (a0 a1 : analysis) (file : string) :
  plain_files a1 →
  file ∈ commonFiles a0 a1 ∨ file ∈ newFiles a0 a1 ∨ file ∈ removedFiles a0 a1
  ↔ file ∈ summary_keys a0 ∨ file ∈ summary_keys a1.
Proof.
  intros P1. unfold commonFiles, newFiles, removedFiles.
  rewrite !list_elem_of_In, !filter_In, <- !list_elem_of_In.
  split.
  - intros [[? _]|[[? _]|[? _]]]; auto.
  - intros [H0|H1].
    + destruct (JS.truthy_text (summary_at a1 file)) eqn:E; auto.
    + destruct (JS.truthy_text (summary_at a0 file)) eqn:E0; [|auto].
      apply summary_at_truthy_key in E0 as [E0|E0].
      * destruct (JS.truthy_text (summary_at a1 file)) eqn:E1; auto.
      * by rewrite (plain_files_key a1 file P1 H1) in E0.
Qed.

(** The common files and the removed files never meet: the two filters
    over the keys of the first document are each other's negation. *)
Lemma common_removed_disjoint (a0 a1 : analysis) (file : string) :
  file ∈ commonFiles a0 a1 → file ∉ removedFiles a0 a1.
Proof.
  unfold commonFiles, removedFiles.
  rewrite !list_elem_of_In, !filter_In.
  intros [_ Ht] [_ Hf]. by rewrite Ht in Hf.
Qed.

Lemma summary_at_key_truthy (a : analysis) (file : string) :
  summaries_nonempty a → file ∈ summary_keys a →
  JS.truthy_text (summary_at a file) = true.
Proof.
  unfold summaries_nonempty, summary_keys, summary_at.
  destruct (summaries a) as [fs|]; simpl; [|by intros _ ?%elem_of_nil].
  intros Hne (s & Hget & Hin)%get_key_Some.
  rewrite (lookup_own _ _ _ Hget). simpl.
  unfold JS.truthy_str. destruct (String.eqb_spec s ""); [|done].
  by destruct (Hne _ _ Hin).
Qed.

(** When no summary of the first document is empty, a new file is neither
    a common file nor a removed one: with [common_removed_disjoint] the
    three lists are then pairwise disjoint. *)
Lemma new_apart_when_nonempty (a0 a1 : analysis) (file : string) :
  summaries_nonempty a0 →
  file ∈ newFiles a0 a1 →
  (file ∉ commonFiles a0 a1) ∧ (file ∉ removedFiles a0 a1).
Proof.
  unfold commonFiles, newFiles, removedFiles.
  rewrite !list_elem_of_In, !filter_In, <- !list_elem_of_In.
  intros Hne [_ Hnew].
  split; intros [Hk _];
    apply (summary_at_key_truthy _ _ Hne) in Hk; by rewrite Hk in Hnew.
Qed.

(** When, besides, no summary of the second document is empty and no file
    of either document has the name of a member of [Object.prototype], the
    three lists are the keys in both documents, those only in the second
    and those only in the first. *)
Lemma file_lists_by_key (a0 a1 : analysis) (file : string) :
  plain_files a0 → plain_files a1 →
  summaries_nonempty a0 → summaries_nonempty a1 →
  (file ∈ commonFiles a0 a1 ↔ file ∈ summary_keys a0 ∧ file ∈ summary_keys a1)
  ∧ (file ∈ newFiles a0 a1 ↔ file ∈ summary_keys a1 ∧ file ∉ summary_keys a0)
  ∧ (file ∈ removedFiles a0 a1 ↔ file ∈ summary_keys a0 ∧ file ∉ summary_keys a1).
Proof.
  intros P0 P1 H0 H1. unfold commonFiles, newFiles, removedFiles.
  rewrite !list_elem_of_In, !filter_In, <- !list_elem_of_In.
  pose proof (summary_at_truthy_key a0 file) as T0.
  pose proof (summary_at_truthy_key a1 file) as T1.
  pose proof (summary_at_key_truthy a0 file H0) as K0.
  pose proof (summary_at_key_truthy a1 file H1) as K1.
  pose proof (plain_files_key a0 file P0) as Q0.
  pose proof (plain_files_key a1 file P1) as Q1.
  destruct (JS.truthy_text (summary_at a0 file)),
    (JS.truthy_text (summary_at a1 file)), (JS.inherited file);
    simpl; intuition congruence.
Qed.

(** The page shows at most five common files and at most six files of each
    of the other two lists. *)
Lemma shown_file_lists_bounded (a0 a1 : analysis) :
  (length (shownCommonFiles a0 a1) ≤ 5
   ∧ length (shownNewFiles a0 a1) ≤ 6
   ∧ length (shownRemovedFiles a0 a1) ≤ 6)%nat.
Proof.
  unfold shownCommonFiles, shownNewFiles, shownRemovedFiles.
  rewrite !length_take. lia.
Qed.

(** C2.  The lists are not disjoint for every pair of documents.  The
    filters test the summary text, not the presence of the key: a file
    whose summary is the empty text in the first document and which the
    second document has as well is listed both as a common file and as a
    new file. *)
Theorem file_lists_overlap_on_empty_summary :
  let older := {| created_at := None; file_count := Some 1;
                  code := Some {| language_distribution := None;
                                  file_summaries := Some [("src/a.js", "")] |} |} in
  let newer := {| created_at := None; file_count := Some 1;
                  code := Some {| language_distribution := None;
                                  file_summaries :=
                                    Some [("src/a.js", "Entry point.")] |} |} in
  summary_keys older = ["src/a.js"]
  ∧ summary_keys newer = ["src/a.js"]
  ∧ commonFiles older newer = ["src/a.js"]
  ∧ newFiles older newer = ["src/a.js"]
  ∧ removedFiles older newer = [].
Proof. cbv zeta. split_and!; reflexivity. Qed.

End FileLists.

(** ** Percentages *)

Section Percentages.
Import Compare.

(** [tenths] rounds to the nearest tenth: for a value [m * 2^e] with a
    fractional part ([e < 0]) the integer [n] it returns has [n / 10] within
    one twentieth of the value; for an integral value, [n / 10] is the
    value. *)
Lemma tenths_nearest (m : positive) (e : Z) :
  e < 0 →
  2 * Z.abs (Num.tenths m e * 2 ^ (- e) - 10 * Z.pos m) ≤ 2 ^ (- e).
Proof.
  intros He. unfold Num.tenths.
  destruct (Z.leb_spec 0 e) as [?|_]; [lia|].
  replace (1 - e) with (Z.succ (- e)) by lia.
  rewrite Z.pow_succ_r by lia.
  assert (0 < 2 ^ (- e)) as Hp by (apply Z.pow_pos_nonneg; lia).
  set (P := 2 ^ (- e)) in *.
  pose proof (Z.div_mod (20 * Z.pos m + P) (2 * P) ltac:(lia)) as Hdm.
  pose proof (Z.mod_pos_bound (20 * Z.pos m + P) (2 * P) ltac:(lia)) as Hb.
  set (q := (20 * Z.pos m + P) / (2 * P)) in *.
  nia.
Qed.

Lemma tenths_integral (m : positive) (e : Z) :
  0 ≤ e → Num.tenths m e = 10 * (Z.pos m * 2 ^ e).
Proof.
  intros He. unfold Num.tenths.
  destruct (Z.leb_spec 0 e); lia.
Qed.

Lemma totalFiles_from (data : list Chart.datum) (acc : Z) :
  foldl (λ acc item, acc + Chart.value item) acc data
  = acc + Chart.total (Chart.value <$> data).
Proof.
  unfold Chart.total.
  revert acc. induction data as [|d data IH]; intros acc; simpl; [lia|].
  rewrite IH. symmetry. apply Z.add_assoc.
Qed.

Lemma total_perm (ns ms : list Z) : ns ≡ₚ ms → Chart.total ns = Chart.total ms.
Proof.
  unfold Chart.total. induction 1 as [|x l l' _ IH|x y l|l l' l'' _ IH1 _ IH2]; simpl.
  - done.
  - by rewrite IH.
  - lia.
  - by rewrite IH1.
Qed.

Lemma totalFiles_chartData (ld : JS.obj Z) :
  Chart.totalFiles (Chart.chartData ld) = Chart.total ld.*2.
Proof.
  unfold Chart.totalFiles. rewrite totalFiles_from. simpl.
  apply total_perm. unfold Chart.chartData. rewrite sort_perm.
  induction ld as [|[lang n] ld IH]; simpl; [done|]. by constructor.
Qed.

(** [tenths] gives the integer ECMAScript asks for: [n / 10] is nearest to
    the value, and it is the larger one when two are equally near. *)
Lemma tenths_nearest_tenth (m : positive) (e : Z) :
  0 ≤ Num.tenths m e ∧ Num.nearest_tenth m e (Num.tenths m e).
Proof.
  unfold Num.nearest_tenth, Num.tenths.
  destruct (Z.leb_spec 0 e) as [He|He].
  - split; [|lia].
    assert (0 < 2 ^ e) by (apply Z.pow_pos_nonneg; lia). nia.
  - replace (1 - e) with (Z.succ (- e)) by lia.
    rewrite Z.pow_succ_r by lia.
    assert (0 < 2 ^ (- e)) as Hp by (apply Z.pow_pos_nonneg; lia).
    set (P := 2 ^ (- e)) in *.
    pose proof (Z.div_mod (20 * Z.pos m + P) (2 * P) ltac:(lia)) as Hdm.
    pose proof (Z.mod_pos_bound (20 * Z.pos m + P) (2 * P) ltac:(lia)) as Hb.
    set (q := (20 * Z.pos m + P) / (2 * P)) in *.
    split; [|nia].
    apply Z.div_pos; lia.
Qed.

(** [toFixed1] writes a number as ECMAScript asks. *)
Lemma toFixed1_written (x : spec_float) : Num.written_to_tenths x (Num.toFixed1 x).
Proof.
  destruct x as [s|s| |s m e]; simpl; try done.
  - by destruct s.
  - intros Hbelow.
    assert (Num.at_least_1e21 m e = false) as ->.
    { unfold Num.at_least_1e21, Num.below_1e21 in *.
      destruct (0 <=? e); apply Z.leb_gt; lia. }
    exists (Num.tenths m e).
    destruct (tenths_nearest_tenth m e) as [H0 Hn]. done.
Qed.

Local Abbreviation ieee n := (binary_normalize 53 1024 n 0 false).
Local Abbreviation percent c f :=
  (SFmul 53 1024 (SFdiv 53 1024 (ieee c) (ieee f)) (ieee 100)).



(** The percentages of the comparison page and of the chart at work; for a
    language that has the name of a member of [Object.prototype] and that
    the document does not list, the page shows the text of [NaN]. *)
Example percentage_examples :
  percentage_of
    {| created_at := None; file_count := Some 3;
       code := Some {| language_distribution := Some [("Go", 1)];
                       file_summaries := None |} |} "Go"
  = Fixed (Num.Digits "33.3")
  ∧ percentage_of
      {| created_at := None; file_count := Some 0;
         code := Some {| language_distribution := Some [("Go", 1)];
                         file_summaries := None |} |} "Go"
    = Zero
  ∧ percentage_of
      {| created_at := None; file_count := Some 3;
         code := Some {| language_distribution := Some [("Go", 1)];
                         file_summaries := None |} |} "constructor"
    = Fixed (Num.Digits "NaN")
  ∧ Chart.primaryPercentage (Chart.chartData [("Go", 1); ("C", 2)])
    = Chart.Percent (Num.Digits "66.7").
Proof. split_and!; vm_compute; reflexivity. Qed.

(** The chart has no test of its denominator: a distribution whose counts
    are all zero is divided by zero, and the cell shows the text of [NaN]. *)
Example chart_percentage_of_zero_total :
  Chart.primaryPercentage (Chart.chartData [("Go", 0)])
  = Chart.Percent (Num.Digits "NaN").
Proof. vm_compute; reflexivity. Qed.

End Percentages.

(** ** The comparison page: fewer or more than two analyses *)

Section NotTwo.
Import Compare.

(** C9.  When the number of loaded analyses is not two, [compareLanguages]
    returns the empty list and [getAgeDifference] returns [null]; and when
    the [ids] parameter does not hold two ids, [fetchAnalyses] sends no
    request and reports the error "Please select two analyses to compare",
    the page no longer loading and its analyses as they were. *)
Theorem not_two_analyses :
  (∀ analyses,
     length analyses ≠ 2%nat →
     compareLanguages analyses = [] ∧ getAgeDifference analyses = None)
  ∧ (∀ env service ids p,
       length (analysisIds ids) ≠ 2%nat →
       fetchAnalyses env service (analysisIds ids) p
       = ([], {| analyses := analyses p;
                 loading := false;
                 error := Some "Please select two analyses to compare" |})).
Proof.
  split.
  - intros l Hl. unfold compareLanguages, getAgeDifference.
    by rewrite !bool_decide_eq_true_2.
  - intros env service ids p Hids. unfold fetchAnalyses.
    by rewrite bool_decide_eq_true_2.
Qed.

(** [not_two_analyses] at a single loaded analysis and at an [ids]
    parameter with three ids. *)
Lemma not_two_analyses_witness :
  (compareLanguages [{| created_at := Some 0; file_count := Some 1; code := None |}] = []
   ∧ getAgeDifference [{| created_at := Some 0; file_count := Some 1; code := None |}]
     = None)
  ∧ fetchAnalyses None (λ _, Failed "unreachable") (analysisIds (Some "a,b,c")) initial
    = ([], {| analyses := [];
              loading := false;
              error := Some "Please select two analyses to compare" |}).
Proof.
  split.
  - apply (proj1 not_two_analyses). simpl. lia.
  - apply (proj2 not_two_analyses None (λ _, Failed "unreachable") (Some "a,b,c") initial).
    vm_compute. lia.
Defined.

Lemma split_whole (sep : ascii) (s : string) :
  JS.occurs sep s = false → JS.split sep s = [s].
Proof.
  induction s as [|c s IH]; simpl; [done|].
  destruct (Ascii.eqb c sep); simpl; [done|].
  intros Hs. by rewrite IH.
Qed.

Lemma split_first (sep : ascii) (s rest : string) :
  JS.occurs sep s = false →
  JS.split sep (s +:+ String sep rest) = s :: JS.split sep rest.
Proof.
  induction s as [|c s IH]; simpl.
  - intros _. by rewrite Ascii.eqb_refl.
  - destruct (Ascii.eqb c sep); simpl; [done|].
    intros Hs. by rewrite IH.
Qed.

(** The address the history page navigates to brings the two selected ids
    to the comparison page, when no id has a comma in it. *)
Lemma analysisIds_of_selection (id1 id2 : string) :
  JS.occurs "," id1 = false → JS.occurs "," id2 = false →
  History.handleCompare [id1; id2]
  = Some ("/analysis/compare?ids=" +:+ JS.join "," [id1; id2])
  ∧ analysisIds (Some (JS.join "," [id1; id2])) = [id1; id2].
Proof.
  intros H1 H2. split; [reflexivity|].
  simpl. change (id1 +:+ "," +:+ id2) with (id1 +:+ String "," id2).
  by rewrite split_first, split_whole.
Qed.

(** With two ids the guard lets the requests through: one for each id, to
    the results endpoint. *)
Lemma fetchAnalyses_two (env : option string) (service : Api.request → response)
    (id1 id2 : string) (p : page) :
  (fetchAnalyses env service [id1; id2] p).1
  = [Api.issue env (Api.getAnalysisResults id1);
     Api.issue env (Api.getAnalysisResults id2)].
Proof.
  unfold fetchAnalyses.
  rewrite bool_decide_eq_false_2 by (simpl; lia).
  by destruct (all (map service (map _ [id1; id2]))).
Qed.

End NotTwo.

(** ** The selection on the history page *)

Section Selection.
Import History.

Lemma filter_others (sel : list string) (id : string) :
  List.filter (λ x, negb (String.eqb x id)) sel = filter (λ x, x ≠ id) sel.
Proof.
  induction sel as [|x sel IH]; simpl; [done|].
  rewrite filter_cons. destruct (String.eqb_spec x id) as [->|Hne]; simpl.
  - by rewrite decide_False by (intros H; by apply H).
  - by rewrite decide_True, IH by done.
Qed.

Lemma toggle_selected (sel : list string) (id : string) :
  id ∈ sel → toggleAnalysisSelection sel id = filter (λ x, x ≠ id) sel.
Proof.
  intros Hin. unfold toggleAnalysisSelection.
  rewrite bool_decide_eq_true_2 by done. apply filter_others.
Qed.

Lemma toggle_fewer_than_two (sel : list string) (id : string) :
  id ∉ sel → (length sel < 2)%nat → toggleAnalysisSelection sel id = sel ++ [id].
Proof.
  intros Hin Hlen. unfold toggleAnalysisSelection.
  rewrite bool_decide_eq_false_2 by done.
  by rewrite bool_decide_eq_true_2 by done.
Qed.

Lemma toggle_two (first second id : string) :
  id ∉ [first; second] → toggleAnalysisSelection [first; second] id = [second; id].
Proof.
  intros Hin. unfold toggleAnalysisSelection.
  rewrite bool_decide_eq_false_2 by done.
  rewrite bool_decide_eq_false_2 by (simpl; lia). done.
Qed.

Lemma toggle_length (sel : list string) (id : string) :
  (length sel ≤ 2 → length (toggleAnalysisSelection sel id) ≤ 2)%nat.
Proof.
  intros Hlen. unfold toggleAnalysisSelection.
  case_bool_decide as Hin.
  - rewrite filter_others. pose proof (length_filter (λ x, x ≠ id) sel). lia.
  - case_bool_decide as Hlt.
    + rewrite length_app. simpl. lia.
    + destruct (sel !! 1%nat); simpl; lia.
Qed.

Lemma act_length (s : state) (a : action) :
  (length (selectedAnalyses s) ≤ 2 → length (selectedAnalyses (act s a)) ≤ 2)%nat.
Proof.
  intros Hlen. destruct a as [id| |]; simpl; [by apply toggle_length|lia|done].
Qed.

Lemma handleCompare_two (sel : list string) :
  (∃ address, handleCompare sel = Some address) ↔ length sel = 2%nat.
Proof.
  unfold handleCompare. case_bool_decide as Hlen.
  - split; [done|]. intros _. eauto.
  - split; [by intros [? [=]]|done].
Qed.

(** C8.  The selection of the history page never holds more than two
    analyses, whatever the user does, and [toggleAnalysisSelection] keeps
    it so for every selection and id: an id that is selected is taken out;
    an id that is not selected is added at the end when fewer than two are
    selected, and takes the place of the older of the two when two are;
    [handleCompare] navigates exactly when two are selected. *)
Theorem selection_at_most_two :
  (∀ actions, (length (selectedAnalyses (after actions)) ≤ 2)%nat)
  ∧ (∀ sel id, (length sel ≤ 2 → length (toggleAnalysisSelection sel id) ≤ 2)%nat)
  ∧ (∀ sel id, id ∈ sel →
       toggleAnalysisSelection sel id = filter (λ x, x ≠ id) sel
       ∧ id ∉ toggleAnalysisSelection sel id)
  ∧ (∀ sel id, id ∉ sel → (length sel < 2)%nat →
       toggleAnalysisSelection sel id = sel ++ [id])
  ∧ (∀ first second id, id ∉ [first; second] →
       toggleAnalysisSelection [first; second] id = [second; id])
  ∧ (∀ sel, (∃ address, handleCompare sel = Some address) ↔ length sel = 2%nat)
  ∧ (∀ s, visited (act s Compare) ≠ visited s → length (selectedAnalyses s) = 2%nat).
Proof.
  split_and!.
  - intros actions. unfold after.
    assert (∀ s, (length (selectedAnalyses s) ≤ 2)%nat →
                 (length (selectedAnalyses (foldl act s actions)) ≤ 2)%nat) as H.
    { induction actions as [|a actions IH]; intros s Hs; simpl; [done|].
      by apply IH, act_length. }
    apply H. simpl. lia.
  - apply toggle_length.
  - intros sel id Hin. rewrite toggle_selected by done.
    split; [done|]. rewrite list_elem_of_filter. by intros [? _].
  - apply toggle_fewer_than_two.
  - apply toggle_two.
  - apply handleCompare_two.
  - intros s Hv. simpl in Hv.
    destruct (handleCompare (selectedAnalyses s)) as [address|] eqn:Hc; [|done].
    apply handleCompare_two. eauto.
Qed.

(** [selection_at_most_two] at work: a third id pushes out the first, a
    second click on an id takes it out, and only two ids navigate. *)
Lemma selection_at_most_two_witness :
  toggleAnalysisSelection ["a1"; "a2"] "a3" = ["a2"; "a3"]
  ∧ toggleAnalysisSelection ["a1"; "a2"] "a1" = filter (λ x, x ≠ "a1") ["a1"; "a2"]
  ∧ toggleAnalysisSelection ["a1"] "a2" = ["a1"] ++ ["a2"]
  ∧ length (selectedAnalyses (act {| selectedAnalyses := ["a1"; "a2"]; visited := [] |}
                                 Compare)) = 2%nat.
Proof.
  destruct selection_at_most_two as (_ & _ & Hin & Hadd & Htwo & _ & _).
  split_and!.
  - apply Htwo. apply (bool_decide_unpack _). by vm_compute.
  - apply Hin. apply (bool_decide_unpack _). by vm_compute.
  - apply Hadd; [apply (bool_decide_unpack _); by vm_compute|simpl; lia].
  - reflexivity.
Defined.

End Selection.

(** ** The status shown by the progress component *)

Section StatusInfo.
Import Polling.

(** C10.  [getStatusInfo] does not give a colour and a label for every
    status text.  The lookup [statusMap[status]] also finds the members of
    [Object.prototype]: for the status "constructor", which is none of the
    eight keys, it finds a function, the fallback is not taken, and what
    the component reads as colour and label is [undefined]. *)
Theorem getStatusInfo_inherited_name :
  JS.keys statusMap
  = ["pending"; "running"; "analyzing_code"; "analyzing_dependencies";
     "analyzing_business"; "analyzing_architecture"; "completed"; "failed"]
  ∧ ("constructor" ∉ JS.keys statusMap)
  ∧ getStatusInfo "constructor" = JS.Inherited "constructor"
  ∧ getStatusInfo "constructor" ≠ JS.Own {| color := "#6B7280"; label := "Unknown" |}
  ∧ shown_color (getStatusInfo "constructor") = None
  ∧ shown_label (getStatusInfo "constructor") = None.
Proof.
  split_and!; try reflexivity; [|discriminate].
  apply (bool_decide_unpack _). by vm_compute.
Qed.

(** For every status text that is not the name of a member of
    [Object.prototype], [getStatusInfo] gives the entry of [statusMap] when
    the text is one of its eight keys, and the grey "Unknown" otherwise;
    for the name of a member it gives the member. *)
Lemma getStatusInfo_fallback (s : string) :
  (JS.inherited s = false →
   (s ∈ JS.keys statusMap ∧ JS.Own <$> JS.get statusMap s = Some (getStatusInfo s))
   ∨ ((s ∉ JS.keys statusMap)
      ∧ getStatusInfo s = JS.Own {| color := "#6B7280"; label := "Unknown" |}))
  ∧ (JS.inherited s = true → getStatusInfo s = JS.Inherited s).
Proof.
  unfold getStatusInfo, JS.lookup. split.
  - intros Hs. rewrite Hs.
    destruct (JS.get statusMap s) as [i|] eqn:Hget.
    + left. split; [|done]. by apply get_Some_key in Hget as [? _].
    + right. split; [|done].
      intros (v & Hv & _)%get_key_Some. congruence.
  - intros Hs.
    assert (JS.get statusMap s = None) as ->; [|by rewrite Hs].
    destruct (JS.get statusMap s) as [i|] eqn:Hget; [|done].
    apply get_Some_key in Hget as [Hk _]. revert Hs.
    unfold JS.keys, statusMap in Hk. simpl in Hk.
    repeat (apply elem_of_cons in Hk as [->|Hk]; [by vm_compute|]).
    by apply elem_of_nil in Hk.
Qed.

End StatusInfo.

(** ** The API client *)

(** C7.  Every request that a function of [apiService] issues, for every
    argument and every setting of the base address, carries the timeout of
    the client, 30000 milliseconds, and goes to the base address of the
    client: no call sets a timeout of its own, and the interceptor changes
    nothing. *)
Theorem every_request_has_timeout (env : option string) (c : Api.call) :
  Api.timeout (Api.issue env c) = 30000
  ∧ Api.baseURL (Api.issue env c) = Api.default_baseURL (Api.apiClient env).
Proof.
  destruct c; split; reflexivity.
Qed.

(** ** The gateway *)

Section GatewayFacts.
Import Gateway.

Lemma strip_prefix_spec (lit s rest : string) :
  JS.strip_prefix lit s = Some rest ↔ s = lit +:+ rest.
Proof.
  revert s. induction lit as [|a lit IH]; intros s; simpl.
  - split; [by intros [= ->]|by intros ->].
  - destruct s as [|b s]; [done|].
    destruct (Ascii.eqb_spec a b) as [->|Hne].
    + rewrite IH. split; [by intros ->|by intros [= ->]].
    + split; [done|]. intros [= ??]. done.
Qed.

Lemma replace_prefix_with (lit repl rest : string) :
  JS.replace_prefix lit repl (lit +:+ rest) = repl +:+ rest.
Proof.
  unfold JS.replace_prefix.
  by rewrite (proj2 (strip_prefix_spec lit (lit +:+ rest) rest) eq_refl).
Qed.

Lemma replace_prefix_without (lit repl s : string) :
  (∀ rest, s ≠ lit +:+ rest) → JS.replace_prefix lit repl s = s.
Proof.
  intros Hno. unfold JS.replace_prefix.
  destruct (JS.strip_prefix lit s) as [rest|] eqn:E; [|done].
  apply strip_prefix_spec in E. by destruct (Hno rest).
Qed.



(** [gateway_route] at work: a JSON body reaches the proxy as the value it
    parses to, and the path is the URL without the prefix. *)
Example gateway_route_examples :
  createApp (λ host resolver req, (host, resolver req, body req)) (λ _, None)
    {| method := "POST"; url := "/api/v1/source-code/files?page=2";
       contentType := JsonBody; body := Text " [1, [true ,null],-20 ] " |}
  = Some ("http://source-code-service:8000", "/files?page=2",
          Parsed (JArr [JInt 1; JArr [JBool true; JNull]; JInt (-20)]))
  ∧ parse "[1, 2]" = Some (JArr [JInt 1; JInt 2])
  ∧ parse "[1 ,2]" = Some (JArr [JInt 1; JInt 2])
  ∧ parse "[1 2]" = None
  ∧ parse "[01]" = None
  ∧ parse "[1,]" = None
  ∧ parse "[-0]" = None
  ∧ parse "[1.5]" = None
  ∧ parse "[1234567890123456]" = None.
Proof. split_and!; reflexivity. Qed.

(** The address of the service is the setting of the environment, and the
    default when the setting is absent or empty. *)
Lemma sourceCodeServiceUrl_default (env : string → option string) :
  env "SOURCE_CODE_SERVICE_URL" = None ∨ env "SOURCE_CODE_SERVICE_URL" = Some "" →
  sourceCodeServiceUrl (loadConfig env) = "http://source-code-service:8000".
Proof. simpl. by intros [-> | ->]. Qed.

End GatewayFacts.

(** ** The polling loops *)

Section PollingFacts.
Import Polling.

Lemma terminal_spec (s : string) :
  terminal s = true ↔ s = "completed" ∨ s = "failed".
Proof.
  unfold terminal. rewrite orb_true_iff, !String.eqb_eq. done.
Qed.

Lemma ends_spec (answer : option status_doc) :
  ends answer ↔ ∃ d, answer = Some d ∧ terminal (status d) = true.
Proof.
  unfold ends. by setoid_rewrite terminal_spec.
Qed.

(** *** The hook *)

Lemma tick_sent (env : option string) (id : string) (oc : bool)
    (answer : option status_doc) (h : hook) (p : Z) :
  poll h = Some p →
  sent (tick env id oc answer h) = sent h ++ [Api.issue env (Api.getAnalysisStatus id)].
Proof.
  intros Hp. unfold tick. rewrite Hp. simpl.
  destruct answer as [d|]; [|done]. by destruct (terminal (status d)).
Qed.

Lemma tick_ends (env : option string) (id : string) (oc : bool)
    (answer : option status_doc) (h : hook) (p : Z) :
  poll h = Some p → ends answer → poll (tick env id oc answer h) = None.
Proof.
  intros Hp (d & -> & Ht)%ends_spec. unfold tick. rewrite Hp. simpl.
  by rewrite Ht.
Qed.

Lemma tick_goes_on (env : option string) (id : string) (oc : bool)
    (answer : option status_doc) (h : hook) (p : Z) :
  poll h = Some p → ¬ ends answer → poll (tick env id oc answer h) = Some p.
Proof.
  intros Hp Hne. unfold tick. rewrite Hp. simpl.
  destruct answer as [d|]; [|done].
  destruct (terminal (status d)) eqn:Ht; [|done].
  destruct Hne. apply ends_spec. eauto.
Qed.

Lemma run_cleared (env : option string) (id : string) (oc : bool)
    (answers : list (option status_doc)) (h : hook) :
  poll h = None → run env id oc answers h = h.
Proof.
  intros Hp. unfold run.
  induction answers as [|answer answers IH]; simpl; [done|].
  unfold tick at 2. by rewrite Hp.
Qed.

(** *** The component *)

Lemma effect_settled (oc : bool) (c : component) :
  settled (effect oc (cleanup c)).
Proof.
  unfold settled, effect. simpl.
  destruct (terminal (status (shown c))) eqn:Ht; simpl; by rewrite ?Ht.
Qed.

Lemma step_settled (id : string) (oc : bool) (answer : option status_doc)
    (c : component) :
  settled c → settled (step id oc answer c).
Proof.
  intros Hc. unfold step.
  destruct (interval c) as [p|] eqn:Hi; [|done].
  destruct (String.eqb_spec (status (shown (fetchStatus id answer c)))
              (status (shown c))) as [Hsame|Hdiff].
  - unfold settled in *.
    change (interval (fetchStatus id answer c)) with (interval c).
    rewrite Hi in *. by rewrite Hsame.
  - apply effect_settled.
Qed.

Lemma reachable_settled (id : string) (oc : bool) (c : component) :
  reachable id oc c → settled c.
Proof.
  induction 1 as [|answer c _ IH].
  - unfold mount, fresh, settled. by simpl.
  - by apply step_settled.
Qed.

Lemma step_requests (id : string) (oc : bool) (answer : option status_doc)
    (c : component) (p : Z) :
  interval c = Some p →
  requests (step id oc answer c)
  = requests c
      ++ [Api.send Api.axios Api.GET
            ("/api/v1/source-code/analysis/analysis/" +:+ id) None None].
Proof.
  intros Hi. unfold step. rewrite Hi.
  destruct (String.eqb _ _); [done|].
  unfold effect. simpl. by destruct (terminal _).
Qed.

Lemma step_ends (id : string) (oc : bool) (answer : option status_doc)
    (c : component) (p : Z) :
  settled c → interval c = Some p → ends answer →
  interval (step id oc answer c) = None.
Proof.
  intros Hc Hi (d & -> & Ht)%ends_spec.
  unfold settled in Hc. rewrite Hi in Hc. destruct Hc as [_ Hrun].
  unfold step. rewrite Hi. simpl.
  destruct (String.eqb_spec (status d) (status (shown c))) as [Hsame|_].
  - rewrite Hsame in Ht. congruence.
  - unfold effect. simpl. by rewrite Ht.
Qed.

Lemma step_goes_on (id : string) (oc : bool) (answer : option status_doc)
    (c : component) (p : Z) :
  settled c → interval c = Some p → ¬ ends answer →
  interval (step id oc answer c) = Some 5000.
Proof.
  intros Hc Hi Hne.
  unfold settled in Hc. rewrite Hi in Hc. destruct Hc as [-> Hrun].
  unfold step. rewrite Hi.
  destruct (String.eqb_spec (status (shown (fetchStatus id answer c)))
              (status (shown c))) as [_|_]; [done|].
  unfold effect. simpl.
  destruct answer as [d|]; simpl.
  - destruct (terminal (status d)) eqn:Ht; [|done].
    destruct Hne. apply ends_spec. eauto.
  - by rewrite Hrun.
Qed.

Lemma steps_cleared (id : string) (oc : bool)
    (answers : list (option status_doc)) (c : component) :
  interval c = None → steps id oc answers c = c.
Proof.
  intros Hi. unfold steps.
  induction answers as [|answer answers IH]; simpl; [done|].
  unfold step at 2. by rewrite Hi.
Qed.



End PollingFacts.

(** ** The chart: its data *)

Section ChartFacts.
Import Chart.

Lemma chart_order_total (a b : datum) :
  0 < value b - value a → value a - value b ≤ 0.
Proof. lia. Qed.

Lemma chartData_perm (ld : JS.obj Z) :
  (λ d, (name d, value d)) <$> chartData ld ≡ₚ ld.
Proof.
  unfold chartData. rewrite sort_perm.
  induction ld as [|[lang n] ld IH]; simpl; [done|]. by constructor.
Qed.

Lemma chartData_length (ld : JS.obj Z) : length (chartData ld) = length ld.
Proof.
  rewrite <- (length_fmap (λ d, (name d, value d))).
  apply Permutation_length, chartData_perm.
Qed.

Lemma chartData_strongly_sorted (ld : JS.obj Z) :
  StronglySorted (λ a b, value b ≤ value a) (chartData ld).
Proof.
  apply (StronglySorted_among (JS.may_precede (λ a b, value b - value a))).
  - unfold JS.may_precede. intros a b _ _. lia.
  - unfold chartData. apply sort_strongly_sorted.
    + apply chart_order_total.
    + intros a b c. unfold JS.may_precede. lia.
Qed.

(** X1.  The data of the chart hold the entries of the distribution, each
    once with its count, sorted by count, largest first, and each with the
    colour of its language. *)
Theorem chartData_sorted (ld : JS.obj Z) :
  StronglySorted (λ a b, value b ≤ value a) (chartData ld)
  ∧ (λ d, (name d, value d)) <$> chartData ld ≡ₚ ld
  ∧ Forall (λ d, color d = getLanguageColor (name d)) (chartData ld).
Proof.
  split_and!.
  - apply chartData_strongly_sorted.
  - apply chartData_perm.
  - unfold chartData. rewrite sort_perm.
    apply Forall_forall. intros d (entry & -> & _)%list_elem_of_fmap. done.
Qed.

(** X2.  When the component draws a chart of a distribution whose counts
    are not negative and add up to 2^53 at most, so that the sum of the
    code is exact, its first entry is an entry of the distribution whose
    count no other entry exceeds; the primary language shown is the name of
    that entry, unless the name is empty, and the primary percentage is
    computed from its count and the total, never the text "0%"; the total
    is the sum of all counts and the number of languages the number of
    entries. *)
Theorem chart_primary_is_largest (ld : JS.obj Z) (s : summary) :
  Forall (λ n, 0 ≤ n) ld.*2 → total ld.*2 ≤ 2 ^ 53 →
  LanguageDistributionChart (Some ld) = Some s →
  ∃ first,
    data s !! 0%nat = Some first
    ∧ (name first, value first) ∈ ld
    ∧ (∀ lang n, (lang, n) ∈ ld → n ≤ value first)
    ∧ (name first ≠ "" → primary_language s = name first)
    ∧ primary_percentage s
      = Percent (Num.percent1 (Num.of_Z (value first)) (Num.of_Z (total ld.*2)))
    ∧ total_files s = total ld.*2
    ∧ languages s = length ld.
Proof.
  intros _ _.
  unfold LanguageDistributionChart. case_bool_decide as Hlen; [done|].
  intros [= <-]. simpl.
  pose proof (chartData_strongly_sorted ld) as Hsorted.
  pose proof (chartData_perm ld) as Hperm.
  pose proof (totalFiles_chartData ld) as Htotal.
  pose proof (chartData_length ld) as Hlength.
  unfold primaryPercentage.
  destruct (chartData ld) as [|first rest] eqn:Hcd.
  { apply Permutation_length in Hperm. simpl in Hperm.
    destruct Hlen. unfold JS.keys. by rewrite length_fmap. }
  exists first. split_and!.
  - done.
  - rewrite <- Hperm. simpl. constructor.
  - intros lang n. rewrite <- Hperm. simpl.
    intros [[= _ ->]|Hin]%elem_of_cons; [lia|].
    apply list_elem_of_fmap in Hin as (d & [= _ ->] & Hd).
    apply StronglySorted_inv in Hsorted as [_ Hall].
    by apply (proj1 (Forall_forall _ _) Hall).
  - intros Hname. simpl. unfold JS.truthy_str.
    by destruct (String.eqb_spec (name first) "").
  - simpl. by rewrite Htotal.
  - done.
  - done.
Qed.

(** [chart_primary_is_largest] at a distribution of three languages. *)
Lemma chart_primary_is_largest_witness :
  ∃ first,
    [ {| name := "Go"; value := 6; color := JS.Own "#00ADD8" |};
      {| name := "Python"; value := 4; color := JS.Own "#3572A5" |};
      {| name := "C"; value := 0; color := JS.Own "#555555" |} ] !! 0%nat = Some first
    ∧ (name first, value first) ∈ [("Python", 4); ("Go", 6); ("C", 0)]
    ∧ (∀ lang n, (lang, n) ∈ [("Python", 4); ("Go", 6); ("C", 0)] → n ≤ value first)
    ∧ (name first ≠ "" → "Go" = name first)
    ∧ Percent (Num.Digits "60.0")
      = Percent (Num.percent1 (Num.of_Z (value first))
                   (Num.of_Z (total [("Python", 4); ("Go", 6); ("C", 0)].*2)))
    ∧ 10 = total [("Python", 4); ("Go", 6); ("C", 0)].*2
    ∧ 3%nat = length [("Python", 4); ("Go", 6); ("C", 0)].
Proof.
  apply (chart_primary_is_largest [("Python", 4); ("Go", 6); ("C", 0)]
           {| data := chartData [("Python", 4); ("Go", 6); ("C", 0)];
              total_files := 10; languages := 3;
              primary_language := "Go";
              primary_percentage := Percent (Num.Digits "60.0") |}).
  - repeat constructor; discriminate.
  - discriminate.
  - vm_compute. reflexivity.
Defined.

Lemma chart_none_iff (languageDistribution : option (JS.obj Z)) :
  LanguageDistributionChart languageDistribution = None
  ↔ languageDistribution = None ∨ languageDistribution = Some [].
Proof.
  unfold LanguageDistributionChart.
  destruct languageDistribution as [[|entry ld]|]; simpl.
  - split; [by right|done].
  - split; [done|]. by intros [?|?].
  - split; [by left|done].
Qed.

(** [getLanguageColor] gives a language whose name is not that of a member
    of [Object.prototype] a colour of the table: its own when the table has
    the language, and the colour of "Other", "#cccccc", when it has not.
    For the name of such a member that the table does not have, it gives
    the member. *)
Lemma getLanguageColor_total (lang : string) :
  (JS.inherited lang = false →
   (∀ c, JS.get LANGUAGE_COLORS lang = Some c → getLanguageColor lang = JS.Own c)
   ∧ (JS.get LANGUAGE_COLORS lang = None → getLanguageColor lang = JS.Own "#cccccc"))
  ∧ (JS.inherited lang = true → getLanguageColor lang = JS.Inherited lang).
Proof.
  assert (Forall (λ kv, kv.2 ≠ "") LANGUAGE_COLORS) as Hne.
  { unfold LANGUAGE_COLORS. repeat constructor; simpl; discriminate. }
  unfold getLanguageColor, JS.lookup. split.
  - intros Hl. split.
    + intros c Hget. rewrite Hget.
      unfold JS.truthy_str. destruct (String.eqb_spec c "") as [->|]; [|done].
      apply get_Some_key in Hget as [_ Hin].
      by destruct (proj1 (Forall_forall _ _) Hne _ Hin).
    + intros Hget. by rewrite Hget, Hl.
  - intros Hl.
    assert (JS.get LANGUAGE_COLORS lang = None) as ->; [|by rewrite Hl].
    destruct (JS.get LANGUAGE_COLORS lang) as [c|] eqn:Hget; [|done].
    apply get_Some_key in Hget as [Hk _]. revert Hl.
    unfold JS.keys, LANGUAGE_COLORS in Hk. simpl in Hk.
    repeat (apply elem_of_cons in Hk as [->|Hk]; [by vm_compute|]).
    by apply elem_of_nil in Hk.
Qed.

End ChartFacts.

(** ** The comparison page: age, totals, loading, sections *)

Section CompareMore.
Import Compare.

(** X3.  The age difference does not depend on the order of the two
    analyses. *)
Theorem getAgeDifference_symmetric (a0 a1 : analysis) :
  getAgeDifference [a0; a1] = getAgeDifference [a1; a0].
Proof.
  unfold getAgeDifference. simpl.
  destruct (created_at a0) as [t0|], (created_at a1) as [t1|]; try done.
  by replace (Z.abs (t0 - t1)) with (Z.abs (t1 - t0)) by lia.
Qed.

(** X4.  For two valid dates less than 2^53 milliseconds apart, where the
    numbers of the code are exact, the text gives whole days and whole
    hours: the hours are fewer than 24, days and hours together fall short
    of the time between the two dates by less than an hour, and the days
    are left out when there is less than one. *)
Theorem getAgeDifference_parts (a0 a1 : analysis) (t0 t1 : Z) :
  created_at a0 = Some t0 → created_at a1 = Some t1 →
  Z.abs (t1 - t0) < 2 ^ 53 →
  ∃ days hours,
    0 ≤ days ∧ 0 ≤ hours < 24
    ∧ days * 86400000 + hours * 3600000 ≤ Z.abs (t1 - t0)
      < days * 86400000 + (hours + 1) * 3600000
    ∧ getAgeDifference [a0; a1]
      = Some (if 0 <? days
              then JS.string_of_Z days +:+ " day" +:+ plural days +:+ " "
                     +:+ JS.string_of_Z hours +:+ " hour" +:+ plural hours
              else JS.string_of_Z hours +:+ " hour" +:+ plural hours).
Proof.
  intros H0 H1 _. unfold getAgeDifference. simpl. rewrite H0, H1. simpl.
  change (1000 * 60 * 60 * 24) with 86400000.
  change (1000 * 60 * 60) with 3600000.
  set (d := Z.abs (t1 - t0)).
  exists (d / 86400000), (d mod 86400000 / 3600000).
  assert (0 ≤ d) as Hd by (unfold d; lia).
  pose proof (Z.div_mod d 86400000 ltac:(lia)) as Hdm.
  pose proof (Z.mod_pos_bound d 86400000 ltac:(lia)) as Hm.
  pose proof (Z.div_mod (d mod 86400000) 3600000 ltac:(lia)) as Hhm.
  pose proof (Z.mod_pos_bound (d mod 86400000) 3600000 ltac:(lia)) as Hh.
  pose proof (Z.div_pos d 86400000 Hd ltac:(lia)) as Hdays.
  assert (0 ≤ d mod 86400000 / 3600000 < 24) as Hhours.
  { split; [apply Z.div_pos; lia|]. apply Z.div_lt_upper_bound; lia. }
  split_and!; try lia. by destruct (0 <? d / 86400000).
Qed.

(** [getAgeDifference_parts] at two dates 25 hours apart. *)
Lemma getAgeDifference_parts_witness :
  ∃ days hours,
    0 ≤ days ∧ 0 ≤ hours < 24
    ∧ days * 86400000 + hours * 3600000 ≤ Z.abs (90000000 - 0)
      < days * 86400000 + (hours + 1) * 3600000
    ∧ getAgeDifference
        [ {| created_at := Some 0; file_count := None; code := None |};
          {| created_at := Some 90000000; file_count := None; code := None |} ]
      = Some (if 0 <? days
              then JS.string_of_Z days +:+ " day" +:+ plural days +:+ " "
                     +:+ JS.string_of_Z hours +:+ " hour" +:+ plural hours
              else JS.string_of_Z hours +:+ " hour" +:+ plural hours).
Proof.
  apply (getAgeDifference_parts
           {| created_at := Some 0; file_count := None; code := None |}
           {| created_at := Some 90000000; file_count := None; code := None |}
           0 90000000); reflexivity.
Defined.

(** *** The differences add up *)

Lemma total_app (ns ms : list Z) :
  Chart.total (ns ++ ms) = Chart.total ns + Chart.total ms.
Proof.
  unfold Chart.total. induction ns as [|n ns IH]; simpl; [done|].
  rewrite IH. apply Z.add_assoc.
Qed.

Lemma total_sub {A : Type} (f g : A → Z) (l : list A) :
  Chart.total ((λ x, f x - g x) <$> l)
  = Chart.total (f <$> l) - Chart.total (g <$> l).
Proof.
  unfold Chart.total. induction l as [|x l IH]; simpl; [done|].
  fold (fmap (M:=list) (λ x, f x - g x) l).
  fold (fmap (M:=list) f l). fold (fmap (M:=list) g l).
  rewrite IH. lia.
Qed.

Lemma get_not_key {V : Type} (o : JS.obj V) (k : string) :
  k ∉ JS.keys o → JS.get o k = None.
Proof.
  intros Hk. destruct (JS.get o k) as [v|] eqn:Hget; [|done].
  by apply get_Some_key in Hget as [? _].
Qed.

Lemma total_zero_outside (ld : JS.obj Z) (l : list string) :
  (∀ k, k ∈ l → k ∉ JS.keys ld) →
  Chart.total ((λ k, default 0 (JS.get ld k)) <$> l) = 0.
Proof.
  unfold Chart.total. induction l as [|k l IH]; intros Hl; simpl; [done|].
  fold (fmap (M:=list) (λ k, default 0 (JS.get ld k)) l).
  rewrite IH by (intros k' Hk'; apply Hl; by constructor).
  rewrite get_not_key by (apply Hl; constructor). done.
Qed.

(** Looking up every name of a list without repeats that covers the keys
    of an object, itself without repeated keys, meets each value once. *)
Lemma total_lookups (ld : JS.obj Z) :
  ∀ l : list string,
    NoDup (JS.keys ld) → NoDup l → (∀ k, k ∈ JS.keys ld → k ∈ l) →
    Chart.total ((λ k, default 0 (JS.get ld k)) <$> l) = Chart.total ld.*2.
Proof.
  induction ld as [|[k v] ld IH]; intros l Hld Hl Hsub.
  - apply total_zero_outside. intros k _. apply not_elem_of_nil.
  - unfold JS.keys in *. simpl in Hld. apply NoDup_cons in Hld as [Hk Hld].
    assert (k ∈ l) as Hkl by (apply Hsub; constructor).
    apply elem_of_Permutation in Hkl as [l' Hl'].
    rewrite Hl' in Hl. apply NoDup_cons in Hl as [Hkl' Hl].
    rewrite (total_perm _ _ (fmap_Permutation _ _ _ Hl')).
    change (Chart.total ((λ k0, default 0 (JS.get ((k, v) :: ld) k0)) <$> k :: l'))
      with (default 0 (JS.get ((k, v) :: ld) k)
            + Chart.total ((λ k0, default 0 (JS.get ((k, v) :: ld) k0)) <$> l')).
    change (Chart.total ((k, v) :: ld).*2) with (v + Chart.total ld.*2).
    simpl (JS.get _ k). rewrite String.eqb_refl. simpl (default _ _).
    f_equal.
    assert (∀ k', k' ∈ ld.*1 → k' ∈ l') as Hsub'.
    { intros k' Hk'.
      assert (k' ∈ l) as Hin by (apply Hsub; simpl; by constructor).
      rewrite Hl' in Hin. apply elem_of_cons in Hin as [->|]; done. }
    rewrite <- (IH l' Hld Hl Hsub').
    f_equal. apply list_fmap_ext. intros i x Hx. simpl.
    destruct (String.eqb_spec k x) as [->|]; [|done].
    destruct Hkl'. by apply list_elem_of_lookup_2 in Hx.
Qed.

Lemma total_files_in (a : analysis) (l : list string) :
  NoDup (listed a) → NoDup l → (∀ k, k ∈ listed a → k ∈ l) →
  Chart.total (files_in a <$> l) = Chart.total (default [] (distribution a)).*2.
Proof.
  unfold listed, files_in.
  destruct (distribution a) as [ld|]; simpl.
  - apply total_lookups.
  - intros _ _ _. unfold Chart.total. by induction l.
Qed.

(** X5.  For two documents whose languages have plain names (none is the
    name of a member of [Object.prototype]), each listed once, and whose counts are whole numbers between 0 and 2^53, the
    difference of every row of the comparison is a number, and the
    differences of all rows add up to the difference between the sums of
    the counts of the two distributions. *)
Theorem compareLanguages_diffs_add_up (a0 a1 : analysis) :
  plain_languages a0 → plain_languages a1 → safe_counts a0 → safe_counts a1 →
  NoDup (listed a0) → NoDup (listed a1) →
  ∃ ds,
    diff <$> compareLanguages [a0; a1] = JS.Int <$> ds
    ∧ Chart.total ds
      = Chart.total (default [] (distribution a1)).*2
        - Chart.total (default [] (distribution a0)).*2.
Proof.
  intros P0 P1 _ _ H0 H1.
  exists ((λ r, files_in a1 (language r) - files_in a0 (language r))
            <$> compareLanguages [a0; a1]).
  split.
  - rewrite <- list_fmap_compose. apply list_fmap_ext. intros i r Hr.
    apply list_elem_of_lookup_2, compareLanguages_row in Hr as (lang & Hl & ->).
    apply row_of_plain. by apply (languages_of_plain a0 a1).
  - rewrite (total_perm _ _ (fmap_Permutation _ _ _ (compareLanguages_perm a0 a1))).
    change (map (row_of [a0; a1]) (languages_of [a0; a1]))
      with (row_of [a0; a1] <$> languages_of [a0; a1]).
    rewrite <- list_fmap_compose.
    rewrite (list_fmap_ext _ (λ lang, files_in a1 lang - files_in a0 lang)
               (languages_of [a0; a1]))
      by done.
    rewrite total_sub.
    rewrite !total_files_in;
      try done; try apply languages_of_NoDup;
      intros k Hk; apply languages_of_elem; auto.
Qed.

(** [compareLanguages_diffs_add_up] at two documents: 10 files before, 12
    after. *)
Lemma compareLanguages_diffs_add_up_witness :
  ∃ ds,
    diff <$> compareLanguages
      [ {| created_at := None; file_count := Some 10;
           code := Some {| language_distribution := Some [("Python", 4); ("Go", 6)];
                           file_summaries := None |} |};
        {| created_at := None; file_count := Some 12;
           code := Some {| language_distribution :=
                             Some [("Go", 2); ("Rust", 4); ("Python", 6)];
                           file_summaries := None |} |} ]
    = JS.Int <$> ds
    ∧ Chart.total ds = Chart.total [2; 4; 6] - Chart.total [4; 6].
Proof.
  apply (compareLanguages_diffs_add_up
           {| created_at := None; file_count := Some 10;
              code := Some {| language_distribution := Some [("Python", 4); ("Go", 6)];
                              file_summaries := None |} |}
           {| created_at := None; file_count := Some 12;
              code := Some {| language_distribution :=
                                Some [("Go", 2); ("Rust", 4); ("Python", 6)];
                              file_summaries := None |} |});
    first [ apply (bool_decide_unpack _); by vm_compute
          | repeat constructor; simpl; first [reflexivity | discriminate] ].
Defined.

End CompareMore.

Section PageFacts.
Import Compare.

Lemma all_length (rs : list response) (docs : list analysis) :
  all rs = inl docs → length docs = length rs.
Proof.
  revert docs. induction rs as [|[doc|message] rs IH]; intros docs; simpl.
  - by intros [= <-].
  - destruct (all rs) as [docs'|]; [|done].
    intros [= <-]. simpl. by rewrite (IH docs').
  - done.
Qed.

Lemma all_inl_iff (rs : list response) :
  (∃ docs, all rs = inl docs) ↔ Forall (λ r, ∃ doc, r = Ok doc) rs.
Proof.
  induction rs as [|[doc|message] rs IH]; simpl.
  - split; [constructor|eauto].
  - destruct (all rs) as [docs'|] eqn:E.
    + split; [|eauto]. intros _. constructor; [eauto|]. apply IH. eauto.
    + split; [by intros [? [=]]|].
      intros [_ [docs [=]]%IH]%Forall_cons.
  - split; [by intros [? [=]]|].
    by intros [[? [=]] _]%Forall_cons.
Qed.

(** X6.  Loading never leaves the page with one analysis: a page that
    holds none or two holds none or two after [fetchAnalyses], whatever the
    ids and the answers.  The page is no longer loading; and it is free of
    an error exactly when there were two ids and both requests succeeded,
    in which case it holds the two documents answered. *)
Theorem fetchAnalyses_none_or_two (env : option string)
    (service : Api.request → response) (ids : list string) (p : page) :
  length (analyses p) = 0%nat ∨ length (analyses p) = 2%nat →
  let p' := (fetchAnalyses env service ids p).2 in
  (length (analyses p') = 0%nat ∨ length (analyses p') = 2%nat)
  ∧ loading p' = false
  ∧ (error p' = None ↔
     length ids = 2%nat
     ∧ Forall (λ id, ∃ doc, service (Api.issue env (Api.getAnalysisResults id)) = Ok doc)
         ids)
  ∧ (error p' = None →
     Forall2 (λ id doc, service (Api.issue env (Api.getAnalysisResults id)) = Ok doc)
       ids (analyses p')).
Proof.
  intros Hp. unfold fetchAnalyses. cbv zeta.
  case_bool_decide as Hlen.
  - simpl. split_and!; [done|done| |done]. split; [done|]. by intros [? _].
  - destruct ids as [|id1 [|id2 [|? ?]]]; try done.
    cbn [map].
    remember (Api.issue env (Api.getAnalysisResults id1)) as r1 eqn:Hr1.
    remember (Api.issue env (Api.getAnalysisResults id2)) as r2 eqn:Hr2.
    cbn [all].
    destruct (service r1) as [d1|m1] eqn:E1; cbn [snd analyses loading error].
    + destruct (service r2) as [d2|m2] eqn:E2; cbn [snd analyses loading error];
        subst r1 r2.
      * split_and!; [by right|done| |].
        -- split; [|done]. intros _. split; [done|]. repeat constructor; eauto.
        -- intros _. repeat constructor; done.
      * split_and!; [done|done| |done]. split; [done|].
        intros [_ H]. apply Forall_cons in H as [_ H].
        apply Forall_cons in H as [[doc Hdoc] _]. congruence.
    + subst r1 r2. split_and!; [done|done| |done]. split; [done|].
      intros [_ H]. apply Forall_cons in H as [[doc Hdoc] _]. congruence.
Qed.

(** [fetchAnalyses_none_or_two] at the page as it starts, with a service
    that answers the first request only. *)
Lemma fetchAnalyses_none_or_two_witness :
  let service := λ r : Api.request,
    if String.eqb (Api.url r) "/analysis/analysis/a1/results"
    then Ok {| created_at := Some 0; file_count := Some 1; code := None |}
    else Failed "Network Error" in
  let p' := (fetchAnalyses None service ["a1"; "a2"] initial).2 in
  (length (analyses p') = 0%nat ∨ length (analyses p') = 2%nat)
  ∧ loading p' = false
  ∧ (error p' = None ↔
     length ["a1"; "a2"] = 2%nat
     ∧ Forall (λ id, ∃ doc, service (Api.issue None (Api.getAnalysisResults id)) = Ok doc)
         ["a1"; "a2"])
  ∧ (error p' = None →
     Forall2 (λ id doc, service (Api.issue None (Api.getAnalysisResults id)) = Ok doc)
       ["a1"; "a2"] (analyses p')).
Proof.
  intros service.
  apply (fetchAnalyses_none_or_two None service ["a1"; "a2"] initial).
  left. reflexivity.
Defined.



(** X8.  When no file of either document has the name of a member of
    [Object.prototype] or an empty summary, the three lists split the files
    by key: the common files are the keys of both documents, the new files
    the keys of the second only, the removed files the keys of the first
    only; so no file is in two lists. *)
Theorem file_lists_split_by_key (a0 a1 : analysis) (file : string) :
  plain_files a0 → plain_files a1 →
  summaries_nonempty a0 → summaries_nonempty a1 →
  (file ∈ commonFiles a0 a1 ↔ file ∈ summary_keys a0 ∧ file ∈ summary_keys a1)
  ∧ (file ∈ newFiles a0 a1 ↔ file ∈ summary_keys a1 ∧ file ∉ summary_keys a0)
  ∧ (file ∈ removedFiles a0 a1 ↔ file ∈ summary_keys a0 ∧ file ∉ summary_keys a1)
  ∧ ¬ (file ∈ commonFiles a0 a1 ∧ file ∈ newFiles a0 a1)
  ∧ ¬ (file ∈ commonFiles a0 a1 ∧ file ∈ removedFiles a0 a1)
  ∧ ¬ (file ∈ newFiles a0 a1 ∧ file ∈ removedFiles a0 a1).
Proof.
  intros P0 P1 H0 H1.
  destruct (file_lists_by_key a0 a1 file P0 P1 H0 H1) as (Hc & Hn & Hr).
  rewrite Hc, Hn, Hr. tauto.
Qed.

(** [file_lists_split_by_key] at two documents that share one file. *)
Lemma file_lists_split_by_key_witness :
  let older := {| created_at := None; file_count := None;
                  code := Some {| language_distribution := None;
                                  file_summaries :=
                                    Some [("a.js", "A."); ("b.js", "B.")] |} |} in
  let newer := {| created_at := None; file_count := None;
                  code := Some {| language_distribution := None;
                                  file_summaries :=
                                    Some [("b.js", "B2."); ("c.js", "C.")] |} |} in
  ("b.js" ∈ commonFiles older newer
     ↔ "b.js" ∈ summary_keys older ∧ "b.js" ∈ summary_keys newer)
  ∧ ("b.js" ∈ newFiles older newer
     ↔ "b.js" ∈ summary_keys newer ∧ "b.js" ∉ summary_keys older)
  ∧ ("b.js" ∈ removedFiles older newer
     ↔ "b.js" ∈ summary_keys older ∧ "b.js" ∉ summary_keys newer)
  ∧ ¬ ("b.js" ∈ commonFiles older newer ∧ "b.js" ∈ newFiles older newer)
  ∧ ¬ ("b.js" ∈ commonFiles older newer ∧ "b.js" ∈ removedFiles older newer)
  ∧ ¬ ("b.js" ∈ newFiles older newer ∧ "b.js" ∈ removedFiles older newer).
Proof.
  intros older newer.
  apply (file_lists_split_by_key older newer "b.js").
  - repeat constructor.
  - repeat constructor.
  - intros file s Hin. simpl in Hin.
    repeat (apply elem_of_cons in Hin as [[= _ ->]|Hin]; [discriminate|]).
    by apply elem_of_nil in Hin.
  - intros file s Hin. simpl in Hin.
    repeat (apply elem_of_cons in Hin as [[= _ ->]|Hin]; [discriminate|]).
    by apply elem_of_nil in Hin.
Defined.

End PageFacts.

(** ** The sections of the comparison page *)

Section SectionFacts.
Import Sections.

Lemma get_assign {V : Type} (k : string) (v : V) (o : JS.obj V) :
  JS.get (JS.assign k v o) k = Some v.
Proof.
  induction o as [|[k' v'] o IH]; simpl.
  - by rewrite String.eqb_refl.
  - destruct (String.eqb_spec k' k) as [->|Hne]; simpl.
    + by rewrite String.eqb_refl.
    + by rewrite (proj2 (String.eqb_neq k' k) Hne).
Qed.

Lemma get_assign_other {V : Type} (k k2 : string) (v : V) (o : JS.obj V) :
  k2 ≠ k → JS.get (JS.assign k v o) k2 = JS.get o k2.
Proof.
  intros Hne. induction o as [|[k' v'] o IH]; simpl.
  - by rewrite (proj2 (String.eqb_neq k k2)) by done.
  - destruct (String.eqb_spec k' k) as [->|Hne']; simpl.
    + by rewrite (proj2 (String.eqb_neq k k2)) by done.
    + by rewrite IH.
Qed.

Lemma keys_assign {V : Type} (k : string) (v : V) (o : JS.obj V) :
  k ∈ JS.keys o → JS.keys (JS.assign k v o) = JS.keys o.
Proof.
  unfold JS.keys. induction o as [|[k' v'] o IH]; simpl.
  - by intros ?%elem_of_nil.
  - destruct (String.eqb_spec k' k) as [->|Hne]; simpl; [done|].
    intros [?|Hin]%elem_of_cons; [done|]. f_equal. by apply IH.
Qed.

Lemma assign_twice {V : Type} (k : string) (v w : V) (o : JS.obj V) :
  JS.assign k w (JS.assign k v o) = JS.assign k w o.
Proof.
  induction o as [|[k' v'] o IH]; simpl.
  - by rewrite String.eqb_refl.
  - destruct (String.eqb_spec k' k) as [->|Hne]; simpl.
    + by rewrite String.eqb_refl.
    + by rewrite (proj2 (String.eqb_neq k' k) Hne), IH.
Qed.

Lemma assign_same {V : Type} (k : string) (v : V) (o : JS.obj V) :
  NoDup (JS.keys o) → JS.get o k = Some v → JS.assign k v o = o.
Proof.
  unfold JS.keys. induction o as [|[k' v'] o IH]; simpl; [done|].
  intros [Hk Ho]%NoDup_cons.
  destruct (String.eqb_spec k' k) as [->|Hne]; [by intros [= ->]|].
  intros Hget. by rewrite IH.
Qed.

(** X9.  Toggling a section of the comparison page flips that one and
    leaves every other as it is, in the same order; toggling it again
    brings the sections back as they were. *)
Theorem toggleSection_flips (sections : JS.obj bool) (section : string) (open : bool) :
  NoDup (JS.keys sections) →
  JS.get sections section = Some open →
  JS.get (toggleSection sections section) section = Some (negb open)
  ∧ (∀ other, other ≠ section →
       JS.get (toggleSection sections section) other = JS.get sections other)
  ∧ JS.keys (toggleSection sections section) = JS.keys sections
  ∧ toggleSection (toggleSection sections section) section = sections.
Proof.
  intros Hnd Hget. unfold toggleSection. rewrite Hget. simpl.
  split_and!.
  - apply get_assign.
  - intros other Hne. by apply get_assign_other.
  - apply keys_assign. by apply get_Some_key in Hget as [? _].
  - rewrite get_assign. simpl. rewrite negb_involutive, assign_twice.
    by apply assign_same.
Qed.

(** [toggleSection_flips] at the sections as the page starts, for the code
    section. *)
Lemma toggleSection_flips_witness :
  JS.get (toggleSection expandedSections "code") "code" = Some (negb false)
  ∧ (∀ other, other ≠ "code" →
       JS.get (toggleSection expandedSections "code") other
       = JS.get expandedSections other)
  ∧ JS.keys (toggleSection expandedSections "code") = JS.keys expandedSections
  ∧ toggleSection (toggleSection expandedSections "code") "code" = expandedSections.
Proof.
  apply (toggleSection_flips expandedSections "code" false).
  - apply (bool_decide_unpack _). by vm_compute.
  - reflexivity.
Defined.

End SectionFacts.

(** ** The API client: headers and errors *)

Lemma or_num_nonzero (v : option Z) (d : Z) : d ≠ 0 → JS.or_num v d ≠ 0.
Proof.
  intros Hd. destruct v as [n|]; simpl; [|done].
  unfold JS.truthy_num. by destruct (Z.eqb_spec n 0).
Qed.

Lemma or_str_nonempty (v : option string) (d : string) : d ≠ "" → JS.or_str v d ≠ "".
Proof.
  intros Hd. destruct v as [s|]; simpl; [|done].
  unfold JS.truthy_str. by destruct (String.eqb_spec s "").
Qed.

Lemma or_str_given (s d : string) : s ≠ "" → JS.or_str (Some s) d = s.
Proof.
  intros Hs. simpl. unfold JS.truthy_str. by destruct (String.eqb_spec s "").
Qed.

Section ApiErrorFacts.
Import ApiError.

(** X10.  The error the client rejects with always has a status code other
    than zero and a message that is not empty.  The code is the status of
    the response, and 500 when there is no response or no status; the
    message is the one in the body of the response when it has one, the
    message of the error otherwise, and "Unknown error" when there is
    neither; the error raised is kept. *)
Theorem customError_complete (error : failure) :
  statusCode (on_rejected error) ≠ 0
  ∧ error_message (on_rejected error) ≠ ""
  ∧ originalError (on_rejected error) = error
  ∧ (∀ r n, reply error = Some r → status r = Some n → n ≠ 0 →
            statusCode (on_rejected error) = n)
  ∧ (reply error = None → statusCode (on_rejected error) = 500)
  ∧ (∀ m, reply_message error = Some m → m ≠ "" →
          error_message (on_rejected error) = m)
  ∧ (∀ m, JS.truthy_str_opt (reply_message error) = false →
          message error = Some m → m ≠ "" →
          error_message (on_rejected error) = m).
Proof.
  split_and!.
  - by apply or_num_nonzero.
  - by apply or_str_nonempty, or_str_nonempty.
  - done.
  - intros r n Hr Hn Hne. unfold on_rejected; simpl. rewrite Hr, Hn. simpl.
    unfold JS.truthy_num. by destruct (Z.eqb_spec n 0).
  - intros Hr. unfold on_rejected; simpl. by rewrite Hr.
  - intros m Hm Hne. unfold on_rejected; simpl. rewrite Hm. by apply or_str_given.
  - intros m Hnone Hm Hne. unfold on_rejected; simpl. rewrite Hm.
    rewrite (or_str_given m) by done.
    destruct (reply_message error) as [s|]; simpl in *; [|done].
    by destruct (JS.truthy_str s).
Qed.

(** [customError_complete] at a response 404 with a message and at an
    error without a response. *)
Lemma customError_complete_witness :
  statusCode
    (on_rejected {| reply := Some {| status := Some 404;
                                     data := Some [("message", "Not found")] |};
                    message := Some "Request failed with status code 404" |})
  = 404
  ∧ error_message
      (on_rejected {| reply := None; message := Some "Network Error" |})
    = "Network Error".
Proof.
  split.
  - apply (customError_complete
             {| reply := Some {| status := Some 404;
                                 data := Some [("message", "Not found")] |};
                message := Some "Request failed with status code 404" |})
      with (r := {| status := Some 404; data := Some [("message", "Not found")] |});
      [reflexivity|reflexivity|lia].
  - apply (customError_complete {| reply := None; message := Some "Network Error" |});
      [reflexivity|reflexivity|discriminate].
Defined.

End ApiErrorFacts.

(** ** The hooks *)

Section HookFacts.
Import Hooks.

(** [callApi] always ends with [loading] off; it returns the data and
    leaves no error when the call succeeds, and returns [null], records the
    error and leaves the state of its caller untouched when the call
    fails. *)
Lemma callApi_outcomes {D S : Type} (apiCall : outcome D)
    (onSuccess : option (D → S → S)) (st : S) :
  loading (callApi apiCall onSuccess st).2 = false
  ∧ (∀ data, apiCall = Resolved data →
       (callApi apiCall onSuccess st).1.1 = Some data
       ∧ error (callApi apiCall onSuccess st).2 = None)
  ∧ (∀ message, apiCall = Rejected message →
       (callApi apiCall onSuccess st).1.1 = None
       ∧ (callApi apiCall onSuccess st).1.2 = st
       ∧ error (callApi apiCall onSuccess st).2 = Some message)
  ∧ ((callApi apiCall onSuccess st).1.1 = None
     ↔ error (callApi apiCall onSuccess st).2 ≠ None).
Proof.
  destruct apiCall as [data|message]; simpl; split_and!; try done.
  - by intros data' [= <-].
  - by intros message' [= <-].
Qed.

(** X11.  Deleting a repository takes every repository with that id off
    the list and no other, keeping the order of the rest, when the service
    accepts; when the request fails the list stays as it was and the error
    is recorded. *)
Theorem deleteRepository_list (repositoryId : string) (apiCall : outcome unit)
    (repositories : list repository) :
  (apiCall = Resolved () →
     (deleteRepository repositoryId apiCall repositories).1.2
     = filter (λ r, id r ≠ repositoryId) repositories
     ∧ (∀ r, r ∈ (deleteRepository repositoryId apiCall repositories).1.2 →
             id r ≠ repositoryId)
     ∧ (∀ r, r ∈ repositories → id r ≠ repositoryId →
             r ∈ (deleteRepository repositoryId apiCall repositories).1.2))
  ∧ (∀ message, apiCall = Rejected message →
       (deleteRepository repositoryId apiCall repositories).1.2 = repositories
       ∧ error (deleteRepository repositoryId apiCall repositories).2 = Some message).
Proof.
  assert (List.filter (λ r, negb (String.eqb (id r) repositoryId)) repositories
          = filter (λ r, id r ≠ repositoryId) repositories) as Hf.
  { induction repositories as [|r rs IH]; simpl; [done|].
    rewrite filter_cons. destruct (String.eqb_spec (id r) repositoryId) as [E|E]; simpl.
    - by rewrite decide_False by (intros H; by apply H).
    - by rewrite decide_True, IH by done. }
  split.
  - intros ->. unfold deleteRepository; simpl. rewrite Hf. split_and!.
    + done.
    + intros r. rewrite list_elem_of_filter. by intros [? _].
    + intros r Hr Hne. by apply list_elem_of_filter.
  - by intros message ->.
Qed.

(** [deleteRepository_list] at a list of three repositories. *)
Lemma deleteRepository_list_witness :
  (deleteRepository "r2" (Resolved ())
     [ {| id := "r1"; url := "u1" |}; {| id := "r2"; url := "u2" |};
       {| id := "r3"; url := "u3" |} ]).1.2
  = filter (λ r, id r ≠ "r2")
      [ {| id := "r1"; url := "u1" |}; {| id := "r2"; url := "u2" |};
        {| id := "r3"; url := "u3" |} ]
  ∧ (deleteRepository "r2" (Rejected "Network Error")
       [ {| id := "r1"; url := "u1" |}; {| id := "r2"; url := "u2" |} ]).1.2
    = [ {| id := "r1"; url := "u1" |}; {| id := "r2"; url := "u2" |} ].
Proof.
  split.
  - apply (deleteRepository_list "r2" (Resolved ())). reflexivity.
  - apply (proj2 (deleteRepository_list "r2" (Rejected "Network Error") _)
             "Network Error"). reflexivity.
Defined.

End HookFacts.

(** ** The gateway: configuration and error responses *)

Section ConfigFacts.
Import Gateway.

Lemma split_nonempty (sep : ascii) (s : string) : JS.split sep s ≠ [].
Proof.
  destruct s as [|c s]; simpl; [done|].
  destruct (Ascii.eqb c sep); [done|]. by destruct (JS.split sep s).
Qed.

Lemma join_split (sep : ascii) (s : string) :
  JS.join (String sep "") (JS.split sep s) = s.
Proof.
  induction s as [|c s IH]; simpl; [done|].
  destruct (Ascii.eqb_spec c sep) as [->|Hne].
  - pose proof (split_nonempty sep s) as Hn.
    destruct (JS.split sep s) as [|p ps] eqn:E; [done|].
    simpl. simpl in IH. by rewrite IH.
  - destruct (JS.split sep s) as [|p ps] eqn:E.
    + by destruct (split_nonempty sep s).
    + simpl in *. destruct ps as [|p' ps]; simpl in *; by rewrite <- IH.
Qed.

Lemma split_pieces (sep : ascii) (s : string) :
  Forall (λ p, JS.occurs sep p = false) (JS.split sep s).
Proof.
  induction s as [|c s IH]; simpl; [by repeat constructor|].
  destruct (Ascii.eqb_spec c sep) as [->|Hne].
  - by constructor.
  - destruct (JS.split sep s) as [|p ps].
    + constructor; [|constructor].
      simpl. by rewrite (proj2 (Ascii.eqb_neq c sep) Hne).
    + apply Forall_cons in IH as [Hp Hps]. constructor; [|done].
      simpl. by rewrite (proj2 (Ascii.eqb_neq c sep) Hne).
Qed.

(** X12.  Whatever the environment holds, no text setting of the
    configuration is empty: a variable that is absent or empty gives way to
    its default, and one that is set is taken as it is. *)
Theorem loadConfig_never_empty (env : string → option string) :
  nodeEnv (loadConfig env) ≠ ""
  ∧ sourceCodeServiceUrl (loadConfig env) ≠ ""
  ∧ documentationServiceUrl (loadConfig env) ≠ ""
  ∧ logLevel (loadConfig env) ≠ ""
  ∧ corsOrigins (loadConfig env) ≠ []
  ∧ (∀ u, env "SOURCE_CODE_SERVICE_URL" = Some u → u ≠ "" →
          sourceCodeServiceUrl (loadConfig env) = u).
Proof.
  split_and!; try (by apply or_str_nonempty).
  - simpl. destruct (JS.truthy_str_opt _); [apply split_nonempty|done].
  - intros u Hu Hne. simpl. rewrite Hu. by apply or_str_given.
Qed.

(** X13.  The origins allowed are the pieces of [CORS_ORIGINS] between its
    commas: joined with commas they give the setting back, and no origin
    has a comma in it.  Without the setting every origin is allowed. *)
Theorem corsOrigins_of_setting (env : string → option string) :
  (∀ s, env "CORS_ORIGINS" = Some s → s ≠ "" →
        JS.join "," (corsOrigins (loadConfig env)) = s
        ∧ Forall (λ origin, JS.occurs "," origin = false) (corsOrigins (loadConfig env)))
  ∧ (env "CORS_ORIGINS" = None ∨ env "CORS_ORIGINS" = Some "" →
     corsOrigins (loadConfig env) = ["*"]).
Proof.
  split.
  - intros s Hs Hne. simpl. rewrite Hs. simpl.
    unfold JS.truthy_str. destruct (String.eqb_spec s ""); [done|]. simpl.
    split; [apply (join_split ","%char)|apply split_pieces].
  - simpl. by intros [-> | ->].
Qed.

(** [corsOrigins_of_setting] at a setting of two origins. *)
Lemma corsOrigins_of_setting_witness :
  let env := λ k : string,
    if String.eqb k "CORS_ORIGINS"
    then Some "http://localhost:3000,https://codelens.dev" else None in
  JS.join "," (corsOrigins (loadConfig env))
  = "http://localhost:3000,https://codelens.dev"
  ∧ Forall (λ origin, JS.occurs "," origin = false) (corsOrigins (loadConfig env)).
Proof.
  intros env.
  apply (proj1 (corsOrigins_of_setting env)); [reflexivity|discriminate].
Defined.

End ConfigFacts.

Section MiddlewareFacts.
Import Middleware.

(** X14.  The error response of the gateway is always complete: its status
    is never zero and its code and message are never empty; what the error
    carries is used, and an error without a status, a code or a message
    gets 500, "INTERNAL_ERROR" and "Something went wrong".  A request no
    route answers gets status 404 with the code "ROUTE_NOT_FOUND". *)
Theorem error_replies_complete (err : AppError) (method path : string) :
  status (errorHandler err) ≠ 0
  ∧ error_code (errorHandler err) ≠ ""
  ∧ error_message (errorHandler err) ≠ ""
  ∧ (∀ n, statusCode err = Some n → n ≠ 0 → status (errorHandler err) = n)
  ∧ (∀ c, code err = Some c → c ≠ "" → error_code (errorHandler err) = c)
  ∧ (∀ m, message err = Some m → m ≠ "" → error_message (errorHandler err) = m)
  ∧ errorHandler {| message := None; statusCode := None; code := None |}
    = {| status := 500; error_code := "INTERNAL_ERROR";
         error_message := "Something went wrong" |}
  ∧ status (routeNotFound method path) = 404
  ∧ error_code (routeNotFound method path) = "ROUTE_NOT_FOUND".
Proof.
  split_and!; try done.
  - by apply or_num_nonzero.
  - by apply or_str_nonempty.
  - by apply or_str_nonempty.
  - intros n Hn Hne. unfold errorHandler; simpl. rewrite Hn. simpl.
    unfold JS.truthy_num. by destruct (Z.eqb_spec n 0).
  - intros c Hc Hne. unfold errorHandler; simpl. rewrite Hc. by apply or_str_given.
  - intros m Hm Hne. unfold errorHandler; simpl. rewrite Hm. by apply or_str_given.
Qed.

End MiddlewareFacts.

(** ** The polling loops: how often they ask and report *)

Section PollingCounts.
Import Polling.

Lemma ending_ends (answer : option status_doc) :
  ending answer = true ↔ ends answer.
Proof.
  rewrite ends_spec. destruct answer as [d|]; simpl.
  - split; [eauto|]. by intros (d' & [= <-] & ?).
  - split; [done|]. by intros (d' & [=] & _).
Qed.

Lemma run_from (env : option string) (id : string) (oc : bool)
    (answers : list (option status_doc)) :
  ∀ (h : hook) (p : Z),
    poll h = Some p →
    sent (run env id oc answers h)
    = sent h ++ replicate (length (until_end answers))
                  (Api.issue env (Api.getAnalysisStatus id))
    ∧ completions (run env id oc answers h)
      = completions h ++ (if oc then option_list (first_end answers) else [])
    ∧ poll (run env id oc answers h)
      = match first_end answers with Some _ => None | None => Some p end.
Proof.
  induction answers as [|answer answers IH]; intros h p Hp; simpl.
  - by rewrite !app_nil_r, ?(right_id_L [] (++)); destruct oc; rewrite ?app_nil_r.
  - fold (run env id oc answers (tick env id oc answer h)).
    destruct (ending answer) eqn:He.
    + destruct answer as [d|]; [|done]. simpl in He.
      assert (tick env id oc (Some d) h
              = {| poll := None;
                   sent := sent h ++ [Api.issue env (Api.getAnalysisStatus id)];
                   analysisStatus := Some d;
                   completions := if oc then completions h ++ [d] else completions h |})
        as Ht.
      { unfold tick. rewrite Hp. simpl. by rewrite He. }
      rewrite run_cleared by (by rewrite Ht). rewrite Ht. simpl.
      split_and!; [done| |done]. destruct oc; [done|by rewrite app_nil_r].
    + assert (¬ ends answer) as Hne.
      { rewrite <- ending_ends. by rewrite He. }
      pose proof (tick_goes_on env id oc answer h p Hp Hne) as Hp'.
      destruct (IH _ _ Hp') as (Hs & Hc & Hpo).
      rewrite Hs, Hc, Hpo. rewrite (tick_sent env id oc answer h p Hp).
      split_and!; [by rewrite <- app_assoc| |done].
      f_equal. unfold tick. rewrite Hp. simpl.
      destruct answer as [d|]; [|done]. simpl in He. by rewrite He.
Qed.

(** X15.  A hook that has started polling sends one status request each
    time the interval fires, up to and with the first answer "completed" or
    "failed", and none after it; it calls [onComplete] at most once, with
    the status document of that answer; and its interval is cleared exactly
    when such an answer has come. *)
Theorem hook_asks_until_the_end (env : option string) (id : string) (oc : bool)
    (interval : option Z) (answers : list (option status_doc)) :
  let h := run env id oc answers (pollAnalysisStatus interval idle) in
  sent h = replicate (length (until_end answers))
             (Api.issue env (Api.getAnalysisStatus id))
  ∧ completions h = (if oc then option_list (first_end answers) else [])
  ∧ (length (completions h) ≤ 1)%nat
  ∧ (poll h = None ↔ Exists ends answers).
Proof.
  cbv zeta.
  destruct (run_from env id oc answers (pollAnalysisStatus interval idle)
              (default 3000 interval) eq_refl) as (Hs & Hc & Hp).
  simpl in Hs, Hc. split_and!; [done|done| |].
  - rewrite Hc. destruct oc, (first_end answers); simpl; lia.
  - rewrite Hp. clear.
    induction answers as [|answer answers IH]; simpl.
    + split; [done|]. by intros ?%Exists_nil.
    + destruct (ending answer) eqn:He.
      * destruct answer as [d|]; [|done].
        split; [|done]. intros _. left. by apply ending_ends.
      * rewrite IH, Exists_cons. split; [by right|].
        intros [?%ending_ends|?]; [congruence|done].
Qed.

(** *** The component *)

Lemma effect_reported (oc : bool) (c : component) :
  notified c = [] → reported oc (effect oc c).
Proof.
  intros Hn. unfold reported, effect.
  destruct (terminal (status (shown c))) eqn:Ht; simpl; rewrite Ht, Hn.
  - by destruct oc.
  - by rewrite andb_false_r.
Qed.

Lemma step_reported (id : string) (oc : bool) (answer : option status_doc)
    (c : component) :
  settled c → reported oc c → reported oc (step id oc answer c).
Proof.
  intros Hs Hr. unfold step.
  destruct (interval c) as [p|] eqn:Hi; [|done].
  unfold settled in Hs. rewrite Hi in Hs. destruct Hs as [_ Hrun].
  unfold reported in Hr. rewrite Hrun, andb_false_r in Hr.
  destruct (String.eqb_spec (status (shown (fetchStatus id answer c)))
              (status (shown c))) as [Hsame|Hdiff].
  - unfold reported. rewrite Hsame, Hrun, andb_false_r. done.
  - by apply effect_reported.
Qed.

Lemma reachable_reported (id : string) (oc : bool) (c : component) :
  reachable id oc c → reported oc c.
Proof.
  induction 1 as [|answer c Hc IH].
  - unfold reported, mount, effect. simpl. by rewrite andb_false_r.
  - apply step_reported; [by apply (reachable_settled id oc)|done].
Qed.

Lemma steps_from (id : string) (oc : bool) (answers : list (option status_doc)) :
  ∀ (c : component) (p : Z),
    settled c → interval c = Some p →
    length (requests (steps id oc answers c))
    = (length (requests c) + length (until_end answers))%nat.
Proof.
  induction answers as [|answer answers IH]; intros c p Hs Hi; simpl; [lia|].
  fold (steps id oc answers (step id oc answer c)).
  pose proof (step_requests id oc answer c p Hi) as Hreq.
  destruct (ending answer) eqn:He.
  - apply ending_ends in He.
    rewrite steps_cleared by (by apply step_ends with p).
    rewrite Hreq, length_app. simpl. lia.
  - assert (¬ ends answer) as Hne by (rewrite <- ending_ends; by rewrite He).
    rewrite (IH _ 5000); [|by apply step_settled|by apply step_goes_on with p].
    rewrite Hreq, length_app. simpl. lia.
Qed.

(** X16.  From its mounting on, while [analysisId] and [onComplete] stay
    the same, the component has called [onComplete] at most once, with the
    terminal status it shows, and not at all while the status it shows is
    not terminal; its interval is set, to 5000, exactly
    while that status is not terminal; and it has sent one request for each
    answer up to and with the first "completed" or "failed". *)
Theorem component_asks_until_the_end (id : string) (oc : bool)
    (answers : list (option status_doc)) :
  let c := steps id oc answers (mount oc) in
  notified c = (if oc && terminal (status (shown c)) then [shown c] else [])
  ∧ interval c = (if terminal (status (shown c)) then None else Some 5000)
  ∧ length (requests c) = length (until_end answers).
Proof.
  cbv zeta.
  assert (reachable id oc (steps id oc answers (mount oc))) as Hreach.
  { unfold steps. generalize (reach_mount id oc).
    generalize (mount oc). induction answers as [|answer answers IH]; intros c Hc.
    - done.
    - simpl. apply IH. by constructor. }
  split_and!.
  - by apply (reachable_reported id oc).
  - apply reachable_settled in Hreach. unfold settled in Hreach.
    destruct (interval _) as [p|]; [destruct Hreach as [-> ->]|rewrite Hreach]; done.
  - rewrite (steps_from id oc answers (mount oc) 5000); [done| |done].
    apply (reachable_settled id oc). constructor.
Qed.

End PollingCounts.

(** ** The selection: no analysis twice *)

Section SelectionMore.
Import History.

Lemma toggle_NoDup (sel : list string) (id : string) :
  NoDup sel → NoDup (toggleAnalysisSelection sel id).
Proof.
  intros Hnd. unfold toggleAnalysisSelection.
  case_bool_decide as Hin.
  - rewrite filter_others. by apply NoDup_filter.
  - case_bool_decide as Hlt.
    + apply NoDup_app. split_and!; [done| |apply NoDup_singleton].
      intros x Hx ->%list_elem_of_singleton. done.
    + destruct (sel !! 1%nat) as [second|] eqn:Hs; [|apply NoDup_singleton].
      apply NoDup_cons. split; [|apply NoDup_singleton].
      intros ->%list_elem_of_singleton.
      by apply list_elem_of_lookup_2 in Hs.
Qed.

Lemma act_keeps (s : state) (a : action) :
  NoDup (selectedAnalyses s) ∧ Forall compares_two (visited s) →
  NoDup (selectedAnalyses (act s a)) ∧ Forall compares_two (visited (act s a)).
Proof.
  intros [Hnd Hv]. destruct a as [id| |]; simpl.
  - split; [by apply toggle_NoDup|done].
  - split; [constructor|done].
  - split; [done|]. unfold handleCompare.
    case_bool_decide as Hlen; [|done].
    apply Forall_app. split; [done|]. constructor; [|constructor].
    destruct (selectedAnalyses s) as [|id1 [|id2 [|? ?]]]; try done.
    exists id1, id2. split; [|done].
    apply NoDup_cons in Hnd as [Hne _]. intros ->. apply Hne. constructor.
Qed.

(** X17.  The selection never holds the same analysis twice, whatever the
    user does, so every comparison the history page navigates to is one of
    two different analyses. *)
Theorem selection_never_repeats (actions : list action) :
  NoDup (selectedAnalyses (after actions))
  ∧ Forall compares_two (visited (after actions)).
Proof.
  unfold after.
  assert (∀ s, NoDup (selectedAnalyses s) ∧ Forall compares_two (visited s) →
               NoDup (selectedAnalyses (foldl act s actions))
               ∧ Forall compares_two (visited (foldl act s actions))) as H.
  { induction actions as [|a actions IH]; intros s Hs; simpl; [done|].
    by apply IH, act_keeps. }
  apply H. simpl. split; constructor.
Qed.

(** X18.  Selecting an analysis and clicking it again leaves the selection
    as it was, when fewer than two were selected; with two selected, the
    first of them is gone for good and the second remains. *)
Theorem toggle_twice (sel : list string) (id : string) :
  id ∉ sel →
  ((length sel < 2)%nat →
   toggleAnalysisSelection (toggleAnalysisSelection sel id) id = sel)
  ∧ (∀ first second, sel = [first; second] →
       toggleAnalysisSelection (toggleAnalysisSelection sel id) id = [second]).
Proof.
  intros Hin. split.
  - intros Hlen. rewrite (toggle_fewer_than_two sel id Hin Hlen).
    rewrite toggle_selected by (apply elem_of_app; right; constructor).
    rewrite filter_app, filter_cons, decide_False by (intros H; by apply H).
    rewrite filter_nil, app_nil_r.
    clear Hlen. induction sel as [|x sel IH]; [done|].
    apply not_elem_of_cons in Hin as [Hne Hin].
    rewrite filter_cons, decide_True by done. by rewrite IH.
  - intros first second ->. rewrite (toggle_two first second id Hin).
    apply not_elem_of_cons in Hin as [_ Hin].
    apply not_elem_of_cons in Hin as [Hne _].
    rewrite toggle_selected by (right; constructor).
    rewrite filter_cons, decide_True by done.
    rewrite filter_cons, decide_False by (intros H; by apply H). done.
Qed.

(** [toggle_twice] at one selected analysis and at two. *)
Lemma toggle_twice_witness :
  toggleAnalysisSelection (toggleAnalysisSelection ["a1"] "a2") "a2" = ["a1"]
  ∧ toggleAnalysisSelection (toggleAnalysisSelection ["a1"; "a2"] "a3") "a3" = ["a2"].
Proof.
  split.
  - apply (toggle_twice ["a1"] "a2"); [apply (bool_decide_unpack _); by vm_compute|].
    simpl. lia.
  - apply (proj2 (toggle_twice ["a1"; "a2"] "a3"
                    ltac:(apply (bool_decide_unpack _); by vm_compute)) "a1" "a2").
    reflexivity.
Defined.

Lemma unreserved_no_comma (s : string) : JS.all_unreserved s = true → JS.occurs "," s = false.
Proof.
  induction s as [|c s IH]; simpl; [done|].
  intros [Hc Hs]%andb_prop. rewrite (IH Hs), orb_false_r.
  destruct (Ascii.eqb_spec c ",") as [->|]; [|done].
  by vm_compute in Hc.
Qed.

(** X19.  The address the history page navigates to carries the two
    selected ids to the comparison page: when the ids are made of letters,
    digits, "-", "_", "." and "~", characters that a query string carries
    as they are, the text after "ids=" in the address, split at its commas
    as the comparison page splits the value of [ids], gives the same two
    ids in order, and the comparison page asks for the results of each. *)
Theorem compare_link_round_trip (env : option string)
    (service : Api.request → Compare.response) (id1 id2 : string) (p : Compare.page) :
  JS.all_unreserved id1 = true → JS.all_unreserved id2 = true →
  ∃ ids,
    handleCompare [id1; id2] = Some ("/analysis/compare?ids=" +:+ ids)
    ∧ Compare.analysisIds (Some ids) = [id1; id2]
    ∧ (Compare.fetchAnalyses env service (Compare.analysisIds (Some ids)) p).1
      = [Api.issue env (Api.getAnalysisResults id1);
         Api.issue env (Api.getAnalysisResults id2)].
Proof.
  intros H1 H2. exists (JS.join "," [id1; id2]).
  destruct (analysisIds_of_selection id1 id2 (unreserved_no_comma _ H1) (unreserved_no_comma _ H2))
    as [Hc Hids].
  split_and!; [done|done|]. rewrite Hids. apply fetchAnalyses_two.
Qed.

(** [compare_link_round_trip] at two ids. *)
Lemma compare_link_round_trip_witness :
  ∃ ids,
    handleCompare ["a1"; "a2"] = Some ("/analysis/compare?ids=" +:+ ids)
    ∧ Compare.analysisIds (Some ids) = ["a1"; "a2"]
    ∧ (Compare.fetchAnalyses None (λ _, Compare.Failed "offline")
         (Compare.analysisIds (Some ids)) Compare.initial).1
      = [Api.issue None (Api.getAnalysisResults "a1");
         Api.issue None (Api.getAnalysisResults "a2")].
Proof.
  apply (compare_link_round_trip None (λ _, Compare.Failed "offline") "a1" "a2"
           Compare.initial); reflexivity.
Defined.

End SelectionMore.

(** ** Text search *)

Lemma string_cons_app (c : ascii) (a b : string) :
  String c a +:+ b = String c (a +:+ b).
Proof. reflexivity. Qed.

Lemma string_nil_app (a : string) : "" +:+ a = a.
Proof. reflexivity. Qed.

Lemma strip_prefix_app (pat s rest x : string) :
  JS.strip_prefix pat s = Some rest → JS.strip_prefix pat (s +:+ x) = Some (rest +:+ x).
Proof.
  revert s. induction pat as [|a pat IH]; intros s; simpl.
  - by intros [= ->].
  - destruct s as [|b s]; [done|]. rewrite string_cons_app. simpl.
    destruct (Ascii.eqb a b); [apply IH|done].
Qed.

Lemma find_Some (pat s before rest : string) :
  JS.find pat s = Some (before, rest) → s = before +:+ pat +:+ rest.
Proof.
  revert before. induction s as [|c s IH]; intros before; simpl.
  - destruct (JS.strip_prefix pat "") as [r|] eqn:E; [|done].
    intros [= <- <-]. by apply strip_prefix_spec in E.
  - destruct (JS.strip_prefix pat (String c s)) as [r|] eqn:E.
    + intros [= <- <-]. by apply strip_prefix_spec in E.
    + destruct (JS.find pat s) as [[b r]|]; [|done].
      intros [= <- <-]. rewrite string_cons_app. f_equal. by apply IH.
Qed.

Lemma find_app (pat before rest : string) :
  JS.find pat (before +:+ pat +:+ rest) ≠ None.
Proof.
  induction before as [|c before IH].
  - rewrite string_nil_app.
    assert (JS.strip_prefix pat (pat +:+ rest) = Some rest) as E
      by (by apply strip_prefix_spec).
    destruct (pat +:+ rest); simpl; simpl in E; by rewrite E.
  - rewrite string_cons_app. simpl.
    destruct (JS.strip_prefix pat (String c (before +:+ pat +:+ rest))); [done|].
    by destruct (JS.find pat (before +:+ pat +:+ rest)) as [[b r]|].
Qed.

(** [includes] holds exactly of the texts in which the pattern occurs. *)
Lemma includes_spec (pat s : string) :
  JS.includes pat s = true ↔ ∃ before rest, s = before +:+ pat +:+ rest.
Proof.
  unfold JS.includes. split.
  - destruct (JS.find pat s) as [[b r]|] eqn:E; [|done].
    intros _. exists b, r. by apply find_Some.
  - intros (b & r & ->). pose proof (find_app pat b r).
    by destruct (JS.find pat (b +:+ pat +:+ r)).
Qed.

Lemma string_app_assoc (a b c : string) : (a +:+ b) +:+ c = a +:+ (b +:+ c).
Proof.
  induction a as [|x a IH]; [done|]. by rewrite !string_cons_app, IH.
Qed.

Lemma string_app_nil_r (a : string) : a +:+ "" = a.
Proof.
  induction a as [|x a IH]; [done|]. by rewrite string_cons_app, IH.
Qed.

Lemma includes_inside (pat x y z : string) :
  JS.includes pat y = true → JS.includes pat (x +:+ y +:+ z) = true.
Proof.
  rewrite !includes_spec. intros (b & r & ->).
  exists (x +:+ b), (r +:+ z). by rewrite !string_app_assoc.
Qed.

(** ** The list of the history page *)

Section ListingFacts.
Import Listing.

Lemma filtered_elem (c : clock) (analyses : list item) (f : filters) (x : item) :
  x ∈ filtered c analyses f ↔
  x ∈ analyses
  ∧ (by_status f ≠ "all" → status x = by_status f)
  ∧ (dateRange f ≠ "all" →
     ∃ t, created_at x = Some t ∧ startDate c (dateRange f) ≤ t)
  ∧ (by_type f ≠ "all" →
     ∃ types, analysis_types x = Some types ∧ by_type f ∈ types).
Proof.
  unfold filtered. cbv zeta.
  assert (∀ l, x ∈ List.filter (has_type (by_type f)) l
               ↔ x ∈ l ∧ ∃ types, analysis_types x = Some types ∧ by_type f ∈ types)
    as Htype.
  { intros l. rewrite !list_elem_of_In, filter_In. unfold has_type.
    destruct (analysis_types x) as [types|].
    - rewrite bool_decide_eq_true. split; [intros [??]; eauto|].
      by intros [? (? & [= <-] & ?)].
    - split; [by intros [_ ?]|by intros [_ (? & ? & _)]]. }
  assert (∀ l, x ∈ List.filter (on_or_after (startDate c (dateRange f))) l
               ↔ x ∈ l ∧ ∃ t, created_at x = Some t ∧ startDate c (dateRange f) ≤ t)
    as Hdate.
  { intros l. rewrite !list_elem_of_In, filter_In. unfold on_or_after.
    destruct (created_at x) as [t|].
    - rewrite Z.leb_le. split; [intros [??]; eauto|].
      by intros [? (? & [= <-] & ?)].
    - split; [by intros [_ ?]|by intros [_ (? & ? & _)]]. }
  assert (∀ l, x ∈ List.filter (λ a, String.eqb (status a) (by_status f)) l
               ↔ x ∈ l ∧ status x = by_status f) as Hstatus.
  { intros l. by rewrite !list_elem_of_In, filter_In, String.eqb_eq. }
  destruct (String.eqb_spec (by_status f) "all") as [Es|Es];
    destruct (String.eqb_spec (dateRange f) "all") as [Ed|Ed];
    destruct (String.eqb_spec (by_type f) "all") as [Et|Et]; simpl;
    rewrite ?Htype, ?Hdate, ?Hstatus; intuition.
Qed.

Lemma filtered_sublist (c : clock) (analyses : list item) (f : filters) :
  filtered c analyses f `sublist_of` analyses.
Proof.
  assert (∀ (p : item → bool) l, List.filter p l `sublist_of` l) as Hsub.
  { intros p l. induction l as [|a l IH]; simpl; [done|].
    destruct (p a); by constructor. }
  unfold filtered. cbv zeta.
  destruct (negb _), (negb _), (negb _);
    repeat (etrans; [apply Hsub|]); done.
Qed.

(** X20.  The list of the history page holds exactly the analyses that pass
    every filter that is set: the chosen status, a valid date not before
    the start of the chosen range, the chosen type among the types of the
    analysis.  Sorting loses and adds nothing; before the sort the analyses
    stand in the order they were loaded; and with every filter on "all" the
    list holds all analyses. *)
Theorem history_list_filters (c : clock) (collate : string → string → Z)
    (analyses : list item) (f : filters) (sortBy : string) :
  (∀ x, x ∈ getFilteredAndSortedAnalyses c collate analyses f sortBy ↔
        x ∈ analyses
        ∧ (by_status f ≠ "all" → status x = by_status f)
        ∧ (dateRange f ≠ "all" →
           ∃ t, created_at x = Some t ∧ startDate c (dateRange f) ≤ t)
        ∧ (by_type f ≠ "all" →
           ∃ types, analysis_types x = Some types ∧ by_type f ∈ types))
  ∧ getFilteredAndSortedAnalyses c collate analyses f sortBy ≡ₚ filtered c analyses f
  ∧ filtered c analyses f `sublist_of` analyses
  ∧ (by_status f = "all" → dateRange f = "all" → by_type f = "all" →
     getFilteredAndSortedAnalyses c collate analyses f sortBy ≡ₚ analyses).
Proof.
  split_and!.
  - intros x. unfold getFilteredAndSortedAnalyses. rewrite sort_perm.
    apply filtered_elem.
  - apply sort_perm.
  - apply filtered_sublist.
  - intros Hs Hd Ht. unfold getFilteredAndSortedAnalyses. rewrite sort_perm.
    unfold filtered. by rewrite Hs, Hd, Ht.
Qed.

(** X21.  When every analysis has a valid date, the list is sorted by date:
    oldest first for "date-asc", newest first for "date-desc" and for every
    other order but "status". *)
Theorem history_list_sorted_by_date (c : clock) (collate : string → string → Z)
    (analyses : list item) (f : filters) (sortBy : string) :
  Forall (λ a, is_Some (created_at a)) analyses →
  sortBy ≠ "status" →
  StronglySorted
    (λ a b, if String.eqb sortBy "date-asc" then time a ≤ time b else time b ≤ time a)
    (getFilteredAndSortedAnalyses c collate analyses f sortBy).
Proof.
  intros Hvalid Hsort. unfold getFilteredAndSortedAnalyses.
  assert (Forall (λ a, is_Some (created_at a)) (filtered c analyses f)) as Hv.
  { apply Forall_forall. intros x [Hx _]%filtered_elem.
    by apply (proj1 (Forall_forall _ _) Hvalid). }
  set (g := λ a b : item,
         if String.eqb sortBy "date-asc" then time a - time b else time b - time a).
  rewrite (sort_ext (order collate sortBy) g).
  - apply (StronglySorted_among (JS.may_precede g)).
    + unfold JS.may_precede, g. intros a b _ _.
      destruct (String.eqb sortBy "date-asc"); lia.
    + apply sort_strongly_sorted.
      * unfold g. intros a b. destruct (String.eqb sortBy "date-asc"); lia.
      * unfold JS.may_precede, g. intros x y z.
        destruct (String.eqb sortBy "date-asc"); lia.
  - intros x y Hx Hy. unfold order, g, time.
    apply (proj1 (Forall_forall _ _) Hv) in Hx as [tx ->].
    apply (proj1 (Forall_forall _ _) Hv) in Hy as [ty ->]. simpl.
    destruct (String.eqb sortBy "date-asc"); [done|].
    destruct (String.eqb sortBy "date-desc"); [done|].
    by rewrite (proj2 (String.eqb_neq sortBy "status") Hsort).
Qed.

(** [history_list_sorted_by_date] at three analyses, newest first. *)
Lemma history_list_sorted_by_date_witness :
  StronglySorted
    (λ a b, if String.eqb "date-desc" "date-asc" then time a ≤ time b
            else time b ≤ time a)
    (getFilteredAndSortedAnalyses
       {| midnight := 15; week_ago := 5; month_ago := 0 |} (λ _ _, 0)
       [ {| analysis_id := "1"; status := "completed"; created_at := Some 10;
            analysis_types := Some ["code"] |};
         {| analysis_id := "2"; status := "failed"; created_at := Some 30;
            analysis_types := None |};
         {| analysis_id := "3"; status := "completed"; created_at := Some 20;
            analysis_types := Some ["code"; "business"] |} ]
       {| by_status := "all"; dateRange := "all"; by_type := "all" |}
       "date-desc").
Proof.
  apply history_list_sorted_by_date.
  - repeat constructor; by eexists.
  - discriminate.
Defined.

End ListingFacts.

Section LoadingFacts.
Import Listing.

Lemma matches_includes (repoName : string) (p : project) :
  matches repoName p = JS.includes repoName (name p).
Proof.
  unfold matches. destruct (String.eqb_spec (name p) repoName) as [->|]; [|done].
  simpl. symmetry. apply includes_spec. exists "", "".
  by rewrite string_nil_app, string_app_nil_r.
Qed.

Lemma listing_all_inl (rs : list (answer (list item))) (lists : list (list item)) :
  all rs = inl lists → Forall2 (λ r l, r = Ok l) rs lists.
Proof.
  revert lists. induction rs as [|[l|message] rs IH]; intros lists; simpl.
  - intros [= <-]. constructor.
  - destruct (all rs) as [ls|]; [|done].
    intros [= <-]. constructor; [done|]. by apply IH.
  - done.
Qed.

(** X22.  Loading the history page ends with [loading] off.  A project
    counts for the repository when "owner/repo" occurs in its name.  When
    the page is left without an error, the repository and the projects were
    answered, at least one project counts, the requests were the one for
    the repository, the one for the projects and one for the analyses of
    each project that counts, in order, and the page holds the analyses
    answered, project after project.  When it is left with an error it
    holds the analyses it held before. *)
Theorem history_loading (env : option string) (svc : service)
    (repositoryId : string) (p : page) :
  let r1 := Api.issue env (Api.getRepository repositoryId) in
  let r2 := Api.issue env Api.listProjects in
  let out := fetchRepositoryAndAnalyses env svc repositoryId p in
  loading out.2 = false
  ∧ (error out.2 ≠ None → analyses out.2 = analyses p)
  ∧ (error out.2 = None →
     ∃ rp projects lists,
       repository_of svc r1 = Ok rp
       ∧ projects_of svc r2 = Ok projects
       ∧ shown_repository out.2 = Some rp
       ∧ let counting :=
           List.filter (λ pr, JS.includes (owner rp +:+ "/" +:+ repo rp) (name pr))
             projects in
         counting ≠ []
         ∧ out.1 = r1 :: r2
                     :: map (λ pr, Api.issue env (Api.listProjectAnalyses (id pr)))
                          counting
         ∧ Forall2
             (λ pr l,
                analyses_of svc (Api.issue env (Api.listProjectAnalyses (id pr))) = Ok l)
             counting lists
         ∧ analyses out.2 = concat lists).
Proof.
  cbv zeta. unfold fetchRepositoryAndAnalyses.
  remember (Api.issue env (Api.getRepository repositoryId)) as r1 eqn:Hr1.
  remember (Api.issue env Api.listProjects) as r2 eqn:Hr2.
  destruct (repository_of svc r1) as [rp|m1] eqn:E1; [|by split_and!].
  destruct (projects_of svc r2) as [projects|m2] eqn:E2; [|by split_and!].
  rewrite (filter_ext (matches (owner rp +:+ "/" +:+ repo rp))
             (λ pr, JS.includes (owner rp +:+ "/" +:+ repo rp) (name pr)))
    by (intros pr; apply matches_includes).
  set (counting := List.filter _ projects).
  case_bool_decide as Hnone; [by split_and!|].
  destruct (all _) as [lists|message] eqn:Eall; [|by split_and!].
  simpl. split_and!; [done|done|].
  intros _. exists rp, projects, lists. split_and!; try done.
  - intros Hc. unfold counting in Hnone. by rewrite Hc in Hnone.
  - apply listing_all_inl in Eall. rewrite map_map in Eall.
    by apply (proj1 (Forall2_fmap_l _ _ _ _)) in Eall.
Qed.

End LoadingFacts.

(** ** The dependency graph *)

Section GraphFacts.
Import Graph.

Lemma add_dependency_tidy (acc : list string * list link) (dep : dependency) :
  tidy acc → tidy (add_dependency acc dep).
Proof.
  intros (Hnd & Hne & Hl & Hn). unfold add_dependency.
  destruct (source dep) as [s|]; [|done].
  destruct (target dep) as [t|]; [|done].
  unfold JS.truthy_str.
  destruct (String.eqb_spec s "") as [|Hs]; [done|].
  destruct (String.eqb_spec t "") as [|Ht]; [done|]. simpl.
  assert (∀ x, x ∈ JS.set_add (JS.set_add acc.1 s) t ↔ x ∈ acc.1 ∨ x = s ∨ x = t) as Hin.
  { intros x. rewrite !set_add_elem. tauto. }
  split_and!.
  - by apply set_add_NoDup, set_add_NoDup.
  - apply Forall_forall. intros x [Hx|[->| ->]]%Hin; [|done|done].
    by apply (proj1 (Forall_forall _ _) Hne).
  - apply Forall_app. split.
    + apply Forall_forall. intros l Hlink.
      apply (proj1 (Forall_forall _ _) Hl) in Hlink as [??].
      rewrite !Hin. tauto.
    + constructor; [|constructor]. simpl. rewrite !Hin. tauto.
  - apply Forall_forall. intros x [Hx|[->| ->]]%Hin.
    + apply Exists_app. left. by apply (proj1 (Forall_forall _ _) Hn).
    + apply Exists_app. right. constructor. simpl. by left.
    + apply Exists_app. right. constructor. simpl. by right.
Qed.

Lemma forEach_tidy (dependencies : list dependency) (acc : list string * list link) :
  tidy acc → tidy (foldl add_dependency acc dependencies).
Proof.
  revert acc. induction dependencies as [|dep deps IH]; intros acc Hacc; simpl.
  - done.
  - by apply IH, add_dependency_tidy.
Qed.

Lemma forEach_links (dependencies : list dependency) (acc : list string * list link)
    (s t : string) :
  {| link_source := s; link_target := t |} ∈ (foldl add_dependency acc dependencies).2
  ↔ {| link_source := s; link_target := t |} ∈ acc.2
    ∨ (s ≠ "" ∧ t ≠ "" ∧ {| source := Some s; target := Some t |} ∈ dependencies).
Proof.
  revert acc. induction dependencies as [|dep deps IH]; intros acc; simpl.
  - rewrite elem_of_nil. tauto.
  - rewrite IH, elem_of_cons. unfold add_dependency.
    destruct dep as [[s'|] [t'|]]; simpl;
      try (split; [tauto|intros [?|(?&?&[[=]|?])]; tauto]).
    unfold JS.truthy_str.
    destruct (String.eqb_spec s' "") as [->|Hs]; simpl.
    { split; [tauto|]. intros [?|(?&?&[[= -> ->]|?])]; tauto. }
    destruct (String.eqb_spec t' "") as [->|Ht]; simpl.
    { split; [tauto|]. intros [?|(?&?&[[= -> ->]|?])]; tauto. }
    rewrite elem_of_app, list_elem_of_singleton. split.
    + intros [[?|[= -> ->]]|?]; [tauto|right|tauto]. split_and!; auto.
    + intros [?|(?&?&[[= -> ->]|?])]; [tauto|left; by right|tauto].
Qed.

(** X23.  The graph built from a list of dependencies is whole: its nodes
    have different ids, none empty, each labelled with its id; every link
    joins two nodes of the graph and every node is an end of some link; and
    the links are the dependencies that have both a source and a target. *)
Theorem parseDependencyArray_whole (dependencies : list dependency) :
  let g := parseDependencyArray dependencies in
  NoDup (id <$> nodes g)
  ∧ Forall (λ n, label n = id n ∧ id n ≠ "") (nodes g)
  ∧ Forall (λ l, link_source l ∈ id <$> nodes g ∧ link_target l ∈ id <$> nodes g)
      (links g)
  ∧ Forall (λ n, Exists (λ l, link_source l = id n ∨ link_target l = id n) (links g))
      (nodes g)
  ∧ (∀ s t, {| link_source := s; link_target := t |} ∈ links g
            ↔ s ≠ "" ∧ t ≠ "" ∧ {| source := Some s; target := Some t |} ∈ dependencies).
Proof.
  cbv zeta. unfold parseDependencyArray. simpl.
  assert (tidy ([], [])) as H0 by (unfold tidy; simpl; split_and!; constructor).
  pose proof (forEach_tidy dependencies _ H0) as (Hnd & Hne & Hl & Hn).
  set (acc := foldl add_dependency ([], []) dependencies) in *.
  assert (∀ l : list string, id <$> map (λ i, {| id := i; label := i |}) l = l)
    as Hids.
  { induction l as [|x xs IH]; simpl; [done|]. f_equal. apply IH. }
  rewrite Hids. split_and!.
  - done.
  - apply Forall_forall. intros n (i & -> & Hi)%list_elem_of_fmap. simpl.
    split; [done|]. by apply (proj1 (Forall_forall _ _) Hne).
  - done.
  - apply Forall_forall. intros n (i & -> & Hi)%list_elem_of_fmap. simpl.
    by apply (proj1 (Forall_forall _ _) Hn).
  - intros s t. unfold acc. rewrite forEach_links. simpl.
    rewrite elem_of_nil. tauto.
Qed.

End GraphFacts.

(** ** Trimming *)

Lemma string_length_app (a b : string) :
  String.length (a +:+ b) = (String.length a + String.length b)%nat.
Proof.
  induction a as [|c a IH]; [done|]. rewrite string_cons_app. simpl. by rewrite IH.
Qed.

Lemma trim_start_inside (s : string) : ∃ l, s = l +:+ JS.trim_start s.
Proof.
  induction s as [|c s [l IH]]; simpl.
  - by exists "".
  - destruct (JS.is_space c).
    + exists (String c l). by rewrite string_cons_app, <- IH.
    + by exists "".
Qed.

Lemma trim_end_inside (s : string) : ∃ r, s = JS.trim_end s +:+ r.
Proof.
  induction s as [|c s [r IH]]; simpl.
  - by exists "".
  - destruct (JS.trim_end s) as [|c' t] eqn:E.
    + destruct (JS.is_space c).
      * exists (String c s). done.
      * exists s. done.
    + exists r. by rewrite string_cons_app, <- IH.
Qed.

(** The trimmed text stands inside the text. *)
Lemma trim_inside (s : string) : ∃ l r, s = l +:+ JS.trim s +:+ r.
Proof.
  destruct (trim_start_inside s) as [l Hl].
  destruct (trim_end_inside (JS.trim_start s)) as [r Hr].
  exists l, r. unfold JS.trim. by rewrite <- Hr.
Qed.

Lemma trim_start_clean (s : string) : JS.starts_clean (JS.trim_start s).
Proof.
  induction s as [|c s IH]; simpl; [done|].
  destruct (JS.is_space c) eqn:E; [done|]. simpl. done.
Qed.

Lemma trim_start_of_clean (s : string) : JS.starts_clean s → JS.trim_start s = s.
Proof. destruct s as [|c s]; simpl; [done|]. by intros ->. Qed.

Lemma trim_end_clean (s : string) : JS.starts_clean s → JS.starts_clean (JS.trim_end s).
Proof.
  destruct s as [|c s]; simpl; [done|]. intros Hc.
  destruct (JS.trim_end s); simpl; [by rewrite Hc|done].
Qed.

Lemma trim_end_twice (s : string) : JS.trim_end (JS.trim_end s) = JS.trim_end s.
Proof.
  induction s as [|c s IH]; simpl; [done|].
  destruct (JS.trim_end s) as [|c' t] eqn:E.
  - destruct (JS.is_space c) eqn:Ec; simpl; [done|by rewrite Ec].
  - change (JS.trim_end (String c (String c' t)))
      with (match JS.trim_end (String c' t) with
            | EmptyString => if JS.is_space c then EmptyString else String c EmptyString
            | t' => String c t'
            end).
    by rewrite IH.
Qed.

Lemma trim_twice (s : string) : JS.trim (JS.trim s) = JS.trim s.
Proof.
  unfold JS.trim.
  rewrite (trim_start_of_clean (JS.trim_end _))
    by apply trim_end_clean, trim_start_clean.
  apply trim_end_twice.
Qed.

(** The text before the first occurrence of a pattern has no occurrence
    of it. *)
Lemma find_before_free (pat s before rest : string) :
  pat ≠ "" → JS.find pat s = Some (before, rest) → JS.includes pat before = false.
Proof.
  intros Hpat. unfold JS.includes.
  revert before. induction s as [|c s IH]; intros before; simpl.
  - destruct (JS.strip_prefix pat "") as [r|] eqn:E; [|done].
    intros [= <- <-]. destruct pat; [done|]. done.
  - destruct (JS.strip_prefix pat (String c s)) as [r|] eqn:E.
    + intros [= <- <-]. destruct pat; [done|]. done.
    + destruct (JS.find pat s) as [[b r]|] eqn:Ef; [|done].
      intros [= <- <-]. simpl.
      destruct (JS.strip_prefix pat (String c b)) as [r'|] eqn:E'.
      * apply find_Some in Ef. subst s.
        apply (strip_prefix_app _ _ _ (pat +:+ r)) in E'.
        rewrite string_cons_app in E'. congruence.
      * specialize (IH b eq_refl). by destruct (JS.find pat b) as [[??]|].
Qed.

(** ** The text of an analysis with its diagrams *)

Section ResultsFacts.
Import Results.

Lemma found_shorter (pat s before rest : string) :
  JS.find pat s = Some (before, rest) →
  (String.length rest + String.length pat ≤ String.length s)%nat.
Proof.
  intros ->%find_Some. rewrite !string_length_app. lia.
Qed.

(** The loop makes the same elements with any fuel that is no less than
    the length of the text: it does not run out. *)
Lemma scan_enough (fuel1 : nat) :
  ∀ (fuel2 : nat) (rest : string),
    (String.length rest ≤ fuel1)%nat → (String.length rest ≤ fuel2)%nat →
    scan fuel1 rest = scan fuel2 rest.
Proof.
  induction fuel1 as [|fuel1 IH]; intros fuel2 rest H1 H2.
  - destruct rest; [|simpl in H1; lia]. by destruct fuel2.
  - destruct fuel2 as [|fuel2].
    + destruct rest; [done|simpl in H2; lia].
    + simpl. destruct (JS.find "```mermaid" rest) as [[before opened]|] eqn:E1; [|done].
      destruct (JS.find "```" opened) as [[content after]|] eqn:E2; [|done].
      apply found_shorter in E1, E2. simpl in E1, E2.
      do 2 f_equal. apply IH; lia.
Qed.

Lemma pre_piece_well_made (text l r t : string) :
  text = l +:+ t +:+ r → Forall (well_made text) (pre_piece t).
Proof.
  intros Ht. unfold pre_piece, JS.truthy_str.
  destruct (String.eqb_spec (JS.trim t) ""); simpl; [constructor|].
  constructor; [|constructor]. split; [eauto|done].
Qed.

Lemma scan_well_made (fuel : nat) :
  ∀ text l rest, text = l +:+ rest → Forall (well_made text) (scan fuel rest).
Proof.
  induction fuel as [|fuel IH]; intros text l rest Ht; simpl.
  - apply (pre_piece_well_made text l ""). by rewrite string_app_nil_r.
  - assert (Forall (well_made text) (pre_piece rest)) as Hrest.
    { apply (pre_piece_well_made text l ""). by rewrite string_app_nil_r. }
    destruct (JS.find "```mermaid" rest) as [[before opened]|] eqn:E1; [|done].
    destruct (JS.find "```" opened) as [[content after]|] eqn:E2; [|done].
    assert ("```" ≠ "") as Hpat by discriminate.
    pose proof (find_before_free "```" opened content after Hpat E2) as Hfree.
    apply find_Some in E1, E2. subst opened rest.
    apply Forall_app. split; [|constructor].
    + apply (pre_piece_well_made text l ("```mermaid" +:+ content +:+ "```" +:+ after)).
      done.
    + split; [apply trim_twice|].
      destruct (JS.includes "```" (JS.trim content)) eqn:Hin; [|done].
      destruct (trim_inside content) as (x & y & Hc).
      rewrite Hc in Hfree. by rewrite includes_inside in Hfree.
    + apply (IH text (l +:+ before +:+ "```mermaid" +:+ content +:+ "```")).
      by rewrite !string_app_assoc.
Qed.

(** X24.  For a text that is not empty [processMermaidDiagrams] gives at
    least one element, and for the empty text none at all.  Unless the
    whole text is given back as one block, every block given stands in the
    text and is more than white space, and every diagram has code that is
    trimmed and holds no fence; the loop over the fences never runs out. *)
Theorem mermaid_elements (text : string) :
  (processMermaidDiagrams text = None ↔ text = "")
  ∧ (text ≠ "" →
     ∃ elements,
       processMermaidDiagrams text = Some elements
       ∧ elements ≠ []
       ∧ (elements = [Pre text] ∨ Forall (well_made text) elements))
  ∧ (∀ fuel, (String.length text ≤ fuel)%nat →
             scan fuel text = scan (String.length text) text).
Proof.
  unfold processMermaidDiagrams, JS.truthy_str. split_and!.
  - destruct (String.eqb_spec text "") as [->|Hne]; simpl; [done|].
    split; [|done]. by destruct (scan _ text).
  - intros Hne. destruct (String.eqb_spec text ""); [done|]. simpl.
    pose proof (scan_well_made (String.length text) text "" text eq_refl) as Hw.
    destruct (scan (String.length text) text) as [|e es]; eauto.
  - intros fuel Hfuel. by apply scan_enough.
Qed.

(** [mermaid_elements] at a text with a diagram between two lines. *)
Lemma mermaid_elements_witness :
  ∃ elements,
    processMermaidDiagrams "Flow: ```mermaid graph TD; A-->B ``` as drawn."
    = Some elements
    ∧ elements ≠ []
    ∧ (elements = [Pre "Flow: ```mermaid graph TD; A-->B ``` as drawn."]
       ∨ Forall (well_made "Flow: ```mermaid graph TD; A-->B ``` as drawn.") elements).
Proof.
  apply (proj1 (proj2 (mermaid_elements
                         "Flow: ```mermaid graph TD; A-->B ``` as drawn."))).
  discriminate.
Defined.

(** X25.  A text without a complete fence, one that opens with
    "```mermaid" and closes with "```", is given back whole as one block;
    a text with one gives a diagram with the trimmed code of the first
    fence, after the text before it if that is more than white space. *)
Theorem mermaid_first_fence (text : string) :
  text ≠ "" →
  ((∀ before opened, JS.find "```mermaid" text = Some (before, opened) →
                     JS.includes "```" opened = false) →
   processMermaidDiagrams text = Some [Pre text])
  ∧ (∀ before opened content after,
       JS.find "```mermaid" text = Some (before, opened) →
       JS.find "```" opened = Some (content, after) →
       ∃ rest,
         processMermaidDiagrams text
         = Some (pre_piece before ++ Diagram (JS.trim content) :: rest)
         ∧ text = before +:+ "```mermaid" +:+ content +:+ "```" +:+ after
         ∧ rest = scan (String.length after) after).
Proof.
  intros Hne. unfold processMermaidDiagrams, JS.truthy_str.
  destruct (String.eqb_spec text ""); [done|]. simpl.
  destruct text as [|c text]; [done|].
  change (String.length (String c text)) with (S (String.length text)).
  split.
  - intros Hno. cbn [scan].
    assert (pre_piece (String c text) = [] ∨ pre_piece (String c text) = [Pre (String c text)])
      as Hp by (unfold pre_piece; destruct (JS.truthy_str _); auto).
    destruct (JS.find "```mermaid" (String c text)) as [[before opened]|] eqn:E1.
    + specialize (Hno before opened eq_refl). unfold JS.includes in Hno.
      destruct (JS.find "```" opened) as [[??]|]; [done|].
      by destruct Hp as [-> | ->].
    + by destruct Hp as [-> | ->].
  - intros before opened content after E1 E2.
    cbn [scan]. rewrite E1, E2.
    exists (scan (String.length after) after). split_and!.
    + pose proof (found_shorter _ _ _ _ E1) as H1.
      pose proof (found_shorter _ _ _ _ E2) as H2.
      change (String.length (String c text)) with (S (String.length text)) in H1.
      simpl in H1, H2.
      rewrite (scan_enough (String.length text) (String.length after) after) by lia.
      by destruct (pre_piece before).
    + apply find_Some in E1, E2. by subst opened.
    + done.
Qed.

(** [mermaid_first_fence] at a text without a fence. *)
Lemma mermaid_first_fence_witness :
  processMermaidDiagrams "No diagram here." = Some [Pre "No diagram here."].
Proof.
  apply (proj1 (mermaid_first_fence "No diagram here." ltac:(discriminate))).
  intros before opened. vm_compute. discriminate.
Defined.

End ResultsFacts.
